(** * ai_dj_cara: the transition-coordination core

    A shallow embedding of the page-side injector (the Track Observer and the
    Metadata Interception Trap) and of the content script (the Transition
    Coordinator with its Prefetch Scheduler), followed by the properties the
    specification states about them.

    Sources embedded:
    - [src/unnamed/part_000]            : the injector that broadcasts snapshots
                                          (module [Injector]);
    - [src/src/injection/injector.ts]   : the earlier injector, without the
                                          exception guards (module [InjectorV1]);
    - [src/src/content/content.ts]      : the coordinator (module [Content]). *)

From Stdlib Require Import ZArith String Ascii List Lia.
From stdpp Require Import base option list strings gmap.
Import ListNotations.
Open Scope Z_scope.
Open Scope string_scope.

(** ** JavaScript values of the host page

    The injector reads the host page through values typed [any].  A value is
    one of the JavaScript primitives, an array, an object (its own properties
    in order, first binding wins) or a function of no argument, which either
    returns a value or throws ([None]).  Numbers are the integer-valued ones. *)

#[local] Unset Elimination Schemes.
Inductive JsVal : Type :=
| JUndefined
| JNull
| JBool (b : bool)
| JNum (z : Z)
| JStr (s : string)
| JArr (items : list JsVal)
| JObj (fields : list (string * JsVal))
| JFun (ret : option JsVal).
#[local] Set Elimination Schemes.

(** The outcome of evaluating an expression: a value, or a thrown exception. *)
Inductive Res (A : Type) : Type :=
| Ok (a : A)
| Throw.
Arguments Ok {A} a.
Arguments Throw {A}.

#[global] Instance res_ret : MRet Res := fun _ a => Ok a.
#[global] Instance res_bind : MBind Res := fun _ _ f m =>
  match m with Ok a => f a | Throw => Throw end.

Module Js.

(** ToBoolean. *)
Definition truthy (v : JsVal) : bool :=
  match v with
  | JUndefined | JNull => false
  | JBool b => b
  | JNum z => negb (z =? 0)%Z
  | JStr s => negb (String.eqb s "")
  | JArr _ | JObj _ | JFun _ => true
  end.

Definition nullish (v : JsVal) : bool :=
  match v with JUndefined | JNull => true | _ => false end.

Fixpoint assoc (p : string) (fs : list (string * JsVal)) : JsVal :=
  match fs with
  | [] => JUndefined
  | (k, v) :: fs' => if String.eqb k p then v else assoc p fs'
  end.

(** [v.p] : a TypeError on [undefined] and [null]. *)
Definition get (v : JsVal) (p : string) : Res JsVal :=
  match v with
  | JUndefined | JNull => Throw
  | JObj fs => Ok (assoc p fs)
  | _ => Ok JUndefined
  end.

(** [v?.p] *)
Definition optGet (v : JsVal) (p : string) : Res JsVal :=
  if nullish v then Ok JUndefined else get v p.

(** [v?.[0]] *)
Definition optIdx0 (v : JsVal) : Res JsVal :=
  match v with
  | JUndefined | JNull => Ok JUndefined
  | JArr l => Ok (match l with [] => JUndefined | x :: _ => x end)
  | JStr s => Ok (match s with
                  | EmptyString => JUndefined
                  | String c _ => JStr (String c EmptyString)
                  end)
  | JObj fs => Ok (assoc "0" fs)
  | _ => Ok JUndefined
  end.

(** [f()] : a TypeError when [f] is not a function. *)
Definition call (f : JsVal) : Res JsVal :=
  match f with
  | JFun (Some v) => Ok v
  | _ => Throw
  end.

(** [a || b], with [b] evaluated only when [a] is falsy. *)
Definition orElse (a : JsVal) (b : Res JsVal) : Res JsVal :=
  if truthy a then Ok a else b.

Fixpoint chars (s : string) : list JsVal :=
  match s with
  | EmptyString => []
  | String c s' => JStr (String c EmptyString) :: chars s'
  end.

(** [...v] inside an array literal : a TypeError when [v] is not iterable. *)
Definition spread (v : JsVal) : Res (list JsVal) :=
  match v with
  | JArr l => Ok l
  | JStr s => Ok (chars s)
  | _ => Throw
  end.

(** [try { body } catch (e) { return null; }] for a body returning [T | null]. *)
Definition tryCatchNull {A : Type} (body : Res (option A)) : option A :=
  match body with
  | Ok r => r
  | Throw => None
  end.

End Js.

(** ** Strings: [String.prototype.split] with a non-empty separator, and [trim] *)

Module Str.

Fixpoint split_aux (sep s cur : string) (skip : nat) : list string :=
  match s with
  | EmptyString => [cur]
  | String c s' =>
      match skip with
      | S k => split_aux sep s' cur k
      | O =>
          if String.prefix sep s
          then cur :: split_aux sep s' "" (String.length sep - 1)
          else split_aux sep s' (cur ++ String c EmptyString) 0
      end
  end.

Definition split (s sep : string) : list string := split_aux sep s "" 0.

(** A string stands for the JavaScript string it is the UTF-8 encoding of.
    The white space and line terminators that [trim] strips are the code
    points U+0009 to U+000D and U+0020 (one byte each), U+00A0 (two bytes),
    and U+1680, U+2000 to U+200A, U+2028, U+2029, U+202F, U+205F, U+3000 and
    U+FEFF (three bytes each). *)
Definition is_space (c : ascii) : bool :=
  let n := nat_of_ascii c in
  ((9 <=? n)%nat && (n <=? 13)%nat) || (n =? 32)%nat.

(** The two bytes of U+00A0. *)
Definition is_space2 (c1 c2 : ascii) : bool :=
  (nat_of_ascii c1 =? 194)%nat && (nat_of_ascii c2 =? 160)%nat.

(** The three bytes of one of the longer white space code points. *)
Definition is_space3 (c1 c2 c3 : ascii) : bool :=
  let n1 := nat_of_ascii c1 in
  let n2 := nat_of_ascii c2 in
  let n3 := nat_of_ascii c3 in
  ((n1 =? 225) && (n2 =? 154) && (n3 =? 128))%nat
  || ((n1 =? 226) && (n2 =? 128)
      && (((128 <=? n3) && (n3 <=? 138)) || (n3 =? 168) || (n3 =? 169)
          || (n3 =? 175)))%nat
  || ((n1 =? 226) && (n2 =? 129) && (n3 =? 159))%nat
  || ((n1 =? 227) && (n2 =? 128) && (n3 =? 128))%nat
  || ((n1 =? 239) && (n2 =? 187) && (n3 =? 191))%nat.

Fixpoint trimStart (s : string) : string :=
  match s with
  | EmptyString => EmptyString
  | String c1 s1 =>
      if is_space c1 then trimStart s1
      else match s1 with
           | EmptyString => s
           | String c2 s2 =>
               if is_space2 c1 c2 then trimStart s2
               else match s2 with
                    | EmptyString => s
                    | String c3 s3 =>
                        if is_space3 c1 c2 c3 then trimStart s3 else s
                    end
           end
  end.

(** The string holds white space only. *)
Fixpoint allSpace (s : string) : bool :=
  match s with
  | EmptyString => true
  | String c1 s1 =>
      if is_space c1 then allSpace s1
      else match s1 with
           | EmptyString => false
           | String c2 s2 =>
               if is_space2 c1 c2 then allSpace s2
               else match s2 with
                    | EmptyString => false
                    | String c3 s3 =>
                        if is_space3 c1 c2 c3 then allSpace s3 else false
                    end
           end
  end.

Fixpoint trimEnd (s : string) : string :=
  match s with
  | EmptyString => EmptyString
  | String c s' => if allSpace s then EmptyString else String c (trimEnd s')
  end.

(** [String.prototype.trim] *)
Definition trim (s : string) : string := trimEnd (trimStart s).

End Str.

(** ** The host page as the injector sees it *)

(** [MediaMetadata]: the platform's now-playing record; its attributes are
    strings. *)
Record MediaMetadata : Type := {
  md_title : string;
  md_artist : string;
  md_album : string
}.

(** What the injector can reach of the page: the queue element
    ([document.querySelector('ytmusic-player-queue')]), the player
    ([document.getElementById('movie_player')]), the text of the byline
    element of the player bar when there is one, and the first [video]
    element, named by an identifier, when there is one. *)
Record Host : Type := {
  queueEl : JsVal;
  moviePlayer : JsVal;
  byline : option string;
  video : option nat
}.

Record UpcomingSong : Type := {
  up_title : JsVal;
  up_artist : JsVal
}.

Record CurrentSong : Type := {
  cs_title : JsVal;
  cs_artist : JsVal;
  cs_album : string;
  cs_isPaused : bool
}.

(** ** The queue walk shared by both injectors *)

Module Queue.
Import Js.

(** [unwrap]: the renderer record inside either envelope. *)
Definition unwrap (item : JsVal) : Res JsVal :=
  a ← get item "playlistPanelVideoRenderer";
  orElse a
    (w ← get item "playlistPanelVideoWrapperRenderer";
     p ← optGet w "primaryRenderer";
     optGet p "playlistPanelVideoRenderer").

(** The [for] loop looking for the selected entry, from index [i] on; the
    result is the value of [currentIndex] when the loop ends. *)
Fixpoint findSelected (q : list JsVal) (i : Z) : Res Z :=
  match q with
  | [] => Ok (-1)
  | item :: rest =>
      data ← unwrap item;
      if truthy data then
        sel ← get data "selected";
        if truthy sel then Ok i else findSelected rest (i + 1)
      else findSelected rest (i + 1)
  end.

(** [x?.runs?.[0]?.text] *)
Definition firstRunText (x : JsVal) : Res JsVal :=
  r ← optGet x "runs";
  r0 ← optIdx0 r;
  optGet r0 "text".

(** [fullQueue[i]], [undefined] out of range. *)
Definition at_index (q : list JsVal) (i : Z) : JsVal :=
  if (i <? 0)%Z then JUndefined
  else match q !! Z.to_nat i with
       | Some v => v
       | None => JUndefined
       end.

(** From [const mainItems = queueState.items || []] to the end of
    [getNextSongData]. *)
Definition nextOf (queueState : JsVal) : Res (option UpcomingSong) :=
  i ← get queueState "items";
  mainItems ← orElse i (Ok (JArr []));
  a ← get queueState "automixItems";
  automixItems ← orElse a (Ok (JArr []));
  l1 ← spread mainItems;
  l2 ← spread automixItems;
  let fullQueue := (l1 ++ l2)%list in
  if (Z.of_nat (length fullQueue) =? 0)%Z then Ok None
  else
    currentIndex ← findSelected fullQueue 0;
    if negb (currentIndex =? -1)%Z
       && (currentIndex <? Z.of_nat (length fullQueue) - 1)%Z
    then
      nextData ← unwrap (at_index fullQueue (currentIndex + 1));
      if truthy nextData then
        t ← get nextData "title";
        tt ← firstRunText t;
        title ← orElse tt (Ok (JStr "Unknown Title"));
        b ← get nextData "longBylineText";
        bt ← firstRunText b;
        artist ← orElse bt (Ok (JStr "Unknown Artist"));
        Ok (Some {| up_title := title; up_artist := artist |})
      else Ok None
    else Ok None.

End Queue.

(** ** Events on the document and actions on the page *)

(** The [detail] of the events [broadcast] publishes ([timestamp], a clock
    reading, is left out). *)
Record Detail : Type := {
  d_currentSong : CurrentSong;
  d_upcomingSong : option UpcomingSong;
  d_reason : string
}.

Inductive BusEvent : Type :=
| EVENT_TRIGGER (d : option Detail)
| EVENT_UPDATE (d : Detail)
| EVENT_RETURN_DATA (d : Detail)
| EVENT_RESUME
| EVENT_REQUEST_DATA.

(** What a handler of the injector does to the page, in order: the real
    [play] and [pause] of a media element, and events sent on the document.
    [dispatchEvent] runs the listeners before it returns; a handler here
    returns the events it sent and the listeners are run on its result.  The
    order does not matter for the trap: its Resume listener writes [isLocked]
    only, and [broadcast], once it has sent its event, writes the two stored
    titles only (lemma [broadcast_onResume_commute]). *)
Inductive Action : Type :=
| RealPlay (el : nat)
| RealPause (el : nat)
| Dispatch (e : BusEvent).

(** What the intercepted [play] hands back: [Promise.resolve()], or the
    promise of the real [play] on the element. *)
Inductive PlayResult : Type :=
| ResolvedTrivially
| FromOriginalPlay (el : nat).

(** [s === v] for a string [s]. *)
Definition strictEqStr (s : string) (v : JsVal) : bool :=
  match v with
  | JStr t => String.eqb s t
  | _ => false
  end.

(** ** The injector of [src/unnamed/part_000]

    The two reads, [broadcast], the intercepted [play], the metadata trap and
    the listeners.  The two-second poll of the queue is left out: it compares
    two titles of type [any] with [!==]. *)

Module Injector.
Import Js.

Record Trap : Type := {
  isLocked : bool;
  currentTitle : JsVal;
  lastUpcomingTitle : JsVal;
  _metadata : option MediaMetadata
}.

Definition initial (m : option MediaMetadata) : Trap :=
  {| isLocked := false; currentTitle := JStr ""; lastUpcomingTitle := JStr "";
     _metadata := m |}.

(** The first half of [getNextSongData]: the way to the queue state;
    [None] is the early [return null] taken when there is no store. *)
Definition queueStateOf (h : Host) : Res (option JsVal) :=
  q ← optGet (queueEl h) "queue";
  s1 ← optGet q "store";
  store ← orElse s1 (optGet (queueEl h) "store");
  if negb (truthy store) then Ok None
  else
    gs ← get store "getState";
    state ← call gs;
    q1 ← optGet state "queue";
    queueState ← orElse q1 (p ← optGet state "player"; optGet p "queue");
    Ok (Some queueState).

(** The body of [getNextSongData] inside its [try]. *)
Definition getNextSongData_body (h : Host) : Res (option UpcomingSong) :=
  o ← queueStateOf h;
  match o with
  | None => Ok None
  | Some queueState =>
      if negb (truthy queueState) then Ok None
      else Queue.nextOf queueState
  end.

Definition getNextSongData (h : Host) : option UpcomingSong :=
  tryCatchNull (getNextSongData_body h).

(** [byline.split('•').map(s => s.trim())] for the text of the byline
    element ([""] when there is none). *)
Definition bylineParts (h : Host) : list string :=
  let byline := match byline h with Some t => t | None => "" end in
  map Str.trim (Str.split byline "•").

(** The body of [getPlayerStatus] inside its [try]; [md] is what the getter
    of [navigator.mediaSession.metadata] returns. *)
Definition getPlayerStatus_body (h : Host) (md : option MediaMetadata)
  : Res (option CurrentSong) :=
  let player := moviePlayer h in
  gv ← optGet player "getVideoData";
  videoData ← (if truthy gv then call gv else Ok JNull);
  let mtitle := match md with Some m => JStr (md_title m) | None => JUndefined end in
  let martist := match md with Some m => JStr (md_artist m) | None => JUndefined end in
  let malbum := match md with Some m => md_album m | None => "" end in
  title ← orElse mtitle (t ← optGet videoData "title"; orElse t (Ok (JStr "")));
  artist ← orElse martist (a ← optGet videoData "author"; orElse a (Ok (JStr "")));
  let album :=
    if String.eqb malbum "" then
      let parts := bylineParts h in
      if (1 <? Z.of_nat (length parts))%Z then nth 1 parts "" else ""
    else malbum in
  gp ← optGet player "getPlayerState";
  isPaused ← (if truthy gp
              then (st ← call gp;
                    Ok (match st with JNum 2 => true | _ => false end))
              else Ok true);
  Ok (Some {| cs_title := title; cs_artist := artist; cs_album := album;
              cs_isPaused := isPaused |}).

Definition getPlayerStatus (h : Host) (md : option MediaMetadata)
  : option CurrentSong :=
  tryCatchNull (getPlayerStatus_body h md).

(** [broadcast(eventType, reason)]: the event is built by [mk] from the
    snapshot; nothing happens when the current-track read is absent. *)
Definition broadcast (mk : Detail -> BusEvent) (reason : string)
    (h : Host) (t : Trap) : Trap * list Action :=
  let currentSong := getPlayerStatus h (_metadata t) in
  let upcomingSong := getNextSongData h in
  match currentSong with
  | Some c =>
      ({| isLocked := isLocked t;
          currentTitle := cs_title c;
          lastUpcomingTitle :=
            match upcomingSong with
            | Some u => if truthy (up_title u) then up_title u else JStr ""
            | None => JStr ""
            end;
          _metadata := _metadata t |},
       [Dispatch (mk {| d_currentSong := c; d_upcomingSong := upcomingSong;
                        d_reason := reason |})])
  | None => (t, [])
  end.

(** [HTMLMediaElement.prototype.play], as overridden, called on [this]. *)
Definition play (t : Trap) (this : nat) : PlayResult * list Action :=
  if isLocked t then (ResolvedTrivially, [])
  else (FromOriginalPlay this, [RealPlay this]).

(** The getter of [mediaSession.metadata]. *)
Definition get_metadata (t : Trap) : option MediaMetadata := _metadata t.

(** The setter of [mediaSession.metadata]. *)
Definition set_metadata (h : Host) (t : Trap) (newValue : option MediaMetadata)
  : Trap * list Action :=
  let t1 := {| isLocked := isLocked t; currentTitle := currentTitle t;
               lastUpcomingTitle := lastUpcomingTitle t;
               _metadata := newValue |} in
  match newValue with
  | Some nv =>
      if negb (strictEqStr (md_title nv) (currentTitle t)) then
        let t2 := {| isLocked := true; currentTitle := currentTitle t1;
                     lastUpcomingTitle := lastUpcomingTitle t1;
                     _metadata := _metadata t1 |} in
        let pause := match video h with
                     | Some v => [RealPause v]
                     | None => []
                     end in
        let '(t3, acts) :=
          broadcast (fun d => EVENT_TRIGGER (Some d)) "SONG_CHANGED" h t2 in
        (t3, (pause ++ acts)%list)
      else (t1, [])
  | None => (t1, [])
  end.

(** The listener of [EVENT_RESUME]. *)
Definition onResume (h : Host) (t : Trap) : Trap * list Action :=
  ({| isLocked := false; currentTitle := currentTitle t;
      lastUpcomingTitle := lastUpcomingTitle t; _metadata := _metadata t |},
   match video h with
   | Some v => [RealPlay v]
   | None => []
   end).

(** The listener of [EVENT_REQUEST_DATA]. *)
Definition onRequestData (h : Host) (t : Trap) : Trap * list Action :=
  broadcast EVENT_RETURN_DATA "REQUESTED" h t.

End Injector.

(** ** The earlier injector of [src/src/injection/injector.ts]

    Its queue read has no [try]: an exception reaches the caller.  Its player
    read works on floating-point offsets and is not part of this model. *)

Module InjectorV1.
Import Js.

Record Trap : Type := {
  isLocked : bool;
  currentTitle : string;
  _metadata : option MediaMetadata
}.

Definition initial (m : option MediaMetadata) : Trap :=
  {| isLocked := false; currentTitle := ""; _metadata := m |}.

(** The first half of [getNextSongData]: the way to the queue state. *)
Definition queueStateOf (h : Host) : Res JsVal :=
  q ← optGet (queueEl h) "queue";
  s1 ← optGet q "store";
  store ← orElse s1 (optGet (queueEl h) "store");
  gs ← optGet store "getState";
  state ← (if truthy gs then call gs else Ok JNull);
  q1 ← optGet state "queue";
  orElse q1 (p ← optGet state "player"; optGet p "queue").

Definition getNextSongData (h : Host) : Res (option UpcomingSong) :=
  queueState ← queueStateOf h;
  if negb (truthy queueState) then Ok None
  else Queue.nextOf queueState.

Definition play (t : Trap) (this : nat) : PlayResult * list Action :=
  if isLocked t then (ResolvedTrivially, [])
  else (FromOriginalPlay this, [RealPlay this]).

Definition get_metadata (t : Trap) : option MediaMetadata := _metadata t.

Definition set_metadata (h : Host) (t : Trap) (newValue : option MediaMetadata)
  : Trap * list Action :=
  let t1 := {| isLocked := isLocked t; currentTitle := currentTitle t;
               _metadata := newValue |} in
  match newValue with
  | Some nv =>
      if negb (String.eqb (md_title nv) (currentTitle t)) then
        let t2 := {| isLocked := isLocked t1; currentTitle := md_title nv;
                     _metadata := _metadata t1 |} in
        match video h with
        | None => (t2, [])
        | Some v =>
            ({| isLocked := true; currentTitle := currentTitle t2;
                _metadata := _metadata t2 |},
             [RealPause v; Dispatch (EVENT_TRIGGER None)])
        end
      else (t1, [])
  | None => (t1, [])
  end.

Definition onResume (h : Host) (t : Trap) : Trap * list Action :=
  ({| isLocked := false; currentTitle := currentTitle t;
      _metadata := _metadata t |},
   match video h with
   | Some v => [RealPlay v]
   | None => []
   end).

End InjectorV1.

(** ** The coordinator of [src/src/content/content.ts] *)

Module Content.

(** The tracks as [utils/types] declares them to the content script: the
    fields it reads are strings. *)
Record CurrentSong : Type := {
  c_title : string;
  c_artist : string
}.

Record UpcomingSong : Type := {
  u_title : string;
  u_artist : string
}.

(** The payload of the [SONG_ABOUT_TO_END] message; a title is [None] when
    the indexed segment of the split key is [undefined]. *)
Record AnnouncePayload : Type := {
  currentSongTitle : option string;
  currentSongArtist : string;
  upcomingSongTitle : option string;
  upcomingSongArtist : string
}.

(** The payload of the [PREWARM_RJ] message ([currentTime], a clock reading,
    is left out). *)
Record PrewarmPayload : Type := {
  oldSongTitle : string;
  oldArtist : string;
  newSongTitle : string;
  newArtist : string
}.

(** What the content script sends out, in order. *)
Inductive Effect : Type :=
| PublishResume
| PublishRequestData
| SONG_ABOUT_TO_END (p : AnnouncePayload)
| PREWARM_RJ (p : PrewarmPayload).

(** The callback of a pending [setTimeout]. *)
Inductive TimerCb : Type :=
| PrefetchCb (pairKey : string)
| SafetyCb.

Record Timer : Type := {
  t_delay : Z;
  t_cb : TimerCb
}.

(** The module's variables, with what the browser holds for it: the pending
    timeouts, the next timeout identifier, and the number of [resumeHandler]
    listeners registered by [triggerAnnounce], each with the rest of its
    [handleSongChange] waiting behind it. *)
Record State : Type := {
  currentSong : option CurrentSong;
  upcomingSong : option UpcomingSong;
  processedPairs : gset string;
  prefetchTimer : option nat;
  isEnabled : bool;
  timers : gmap nat Timer;
  nextTimerId : nat;
  waiters : nat
}.

Definition initial : State :=
  {| currentSong := None; upcomingSong := None; processedPairs := ∅;
     prefetchTimer := None; isEnabled := true; timers := ∅;
     nextTimerId := 1%nat; waiters := 0%nat |}.

(** The template [`${a}::${b}`]. *)
Definition pairKey (a b : string) : string := a ++ "::" ++ b.

(** [setTimeout(cb, delay)]; the identifier is returned. *)
Definition setTimeout (s : State) (cb : TimerCb) (delay : Z) : State * nat :=
  ({| currentSong := currentSong s; upcomingSong := upcomingSong s;
      processedPairs := processedPairs s; prefetchTimer := prefetchTimer s;
      isEnabled := isEnabled s;
      timers := <[nextTimerId s := {| t_delay := delay; t_cb := cb |}]> (timers s);
      nextTimerId := S (nextTimerId s); waiters := waiters s |},
   nextTimerId s).

Definition clearTimeout (s : State) (id : nat) : State :=
  {| currentSong := currentSong s; upcomingSong := upcomingSong s;
     processedPairs := processedPairs s; prefetchTimer := prefetchTimer s;
     isEnabled := isEnabled s; timers := delete id (timers s);
     nextTimerId := nextTimerId s; waiters := waiters s |}.

Definition set_prefetchTimer (s : State) (id : nat) : State :=
  {| currentSong := currentSong s; upcomingSong := upcomingSong s;
     processedPairs := processedPairs s; prefetchTimer := Some id;
     isEnabled := isEnabled s; timers := timers s;
     nextTimerId := nextTimerId s; waiters := waiters s |}.

Definition schedulePrefetch (s : State) : State :=
  let s1 := match prefetchTimer s with
            | Some id => if (id =? 0)%nat then s else clearTimeout s id
            | None => s
            end in
  match currentSong s1, upcomingSong s1 with
  | Some c, Some u =>
      let key := pairKey (c_title c) (u_title u) in
      let '(s2, id) := setTimeout s1 (PrefetchCb key) 15000 in
      set_prefetchTimer s2 id
  | _, _ => s1
  end.

Definition add_processed (s : State) (key : string) : State :=
  {| currentSong := currentSong s; upcomingSong := upcomingSong s;
     processedPairs := {[ key ]} ∪ processedPairs s;
     prefetchTimer := prefetchTimer s; isEnabled := isEnabled s;
     timers := timers s; nextTimerId := nextTimerId s; waiters := waiters s |}.

(** [performPrefetch(pairKey, currentSong!, upcomingSong!)], the arguments
    after the key being read when the timeout fires. *)
Definition performPrefetch (s : State) (key : string) : State * list Effect :=
  match currentSong s, upcomingSong s with
  | Some c, Some u =>
      let currentPair := pairKey (c_title c) (u_title u) in
      if negb (String.eqb currentPair key) then (s, [])
      else if bool_decide (key ∈ processedPairs s) then (s, [])
      else (add_processed s key,
            [PREWARM_RJ {| oldSongTitle := c_title c; oldArtist := c_artist c;
                           newSongTitle := u_title u; newArtist := u_artist u |}])
  | _, _ => (s, [])
  end.

(** [key.split('::')[i]] *)
Definition splitAt (key : string) (i : nat) : option string :=
  nth_error (Str.split key "::") i.

(** [triggerAnnounce(pairKey)] up to the point where its promise waits:
    the listener is registered, the message sent, the empty safety timeout
    set. *)
Definition triggerAnnounce (s : State) (key : string) (cur : CurrentSong)
  : State * list Effect :=
  let s1 := {| currentSong := currentSong s; upcomingSong := upcomingSong s;
               processedPairs := processedPairs s;
               prefetchTimer := prefetchTimer s; isEnabled := isEnabled s;
               timers := timers s; nextTimerId := nextTimerId s;
               waiters := S (waiters s) |} in
  let msg := SONG_ABOUT_TO_END
               {| currentSongTitle := splitAt key 0;
                  currentSongArtist := "Unknown";
                  upcomingSongTitle := splitAt key 1;
                  upcomingSongArtist := c_artist cur |} in
  let '(s2, _) := setTimeout s1 SafetyCb 5000 in
  (s2, [msg]).

Definition set_songs (s : State) (c : option CurrentSong)
    (u : option UpcomingSong) : State :=
  {| currentSong := c; upcomingSong := u;
     processedPairs := processedPairs s; prefetchTimer := prefetchTimer s;
     isEnabled := isEnabled s; timers := timers s;
     nextTimerId := nextTimerId s; waiters := waiters s |}.

(** [handleSongChange(detail)] up to its first suspension. *)
Definition handleSongChange (s : State) (c : option CurrentSong)
    (u : option UpcomingSong) : State * list Effect :=
  if negb (isEnabled s) then (s, [PublishResume])
  else
    let prevSong := currentSong s in
    let s1 := set_songs s c u in
    match prevSong, currentSong s1 with
    | Some prev, Some cur =>
        triggerAnnounce s1 (pairKey (c_title prev) (c_title cur)) cur
    | _, _ => (schedulePrefetch s1, [PublishResume])
    end.

Definition set_upcoming (s : State) (u : option UpcomingSong) : State :=
  set_songs s (currentSong s) u.

Definition set_isEnabled (s : State) (b : bool) : State :=
  {| currentSong := currentSong s; upcomingSong := upcomingSong s;
     processedPairs := processedPairs s; prefetchTimer := prefetchTimer s;
     isEnabled := b; timers := timers s;
     nextTimerId := nextTimerId s; waiters := waiters s |}.

Definition clear_waiters (s : State) : State :=
  {| currentSong := currentSong s; upcomingSong := upcomingSong s;
     processedPairs := processedPairs s; prefetchTimer := prefetchTimer s;
     isEnabled := isEnabled s; timers := timers s;
     nextTimerId := nextTimerId s; waiters := 0%nat |}.

(** What the content script reacts to.  [OnMessage ty paused] is a runtime
    message of type [ty], [paused] being
    [document.querySelector('video')?.paused] at that moment ([None] for
    [undefined]); [OnTimer id] is the browser running the timeout [id];
    [OnStorageChanged b] is a change of the [isEnabled] setting;
    [OnInit b] is the callback of the settings read in [init]. *)
Inductive Event : Type :=
| OnTrigger (c : option CurrentSong) (u : option UpcomingSong)
| OnUpdate (c : option CurrentSong) (u : option UpcomingSong)
| OnReturnData (c : option CurrentSong) (u : option UpcomingSong)
| OnMessage (ty : string) (paused : option bool)
| OnTimer (id : nat)
| OnStorageChanged (b : bool)
| OnInit (b : bool).

Definition titleOfC (c : option CurrentSong) : option string := c_title <$> c.
Definition titleOfU (u : option UpcomingSong) : option string := u_title <$> u.

(** The two [TTS_ENDED] listeners, the global one first, then every
    [resumeHandler]; each resolved promise lets the rest of its
    [handleSongChange] run, which is [schedulePrefetch()]. *)
Definition onTtsEnded (s : State) (paused : option bool) : State * list Effect :=
  let global := match paused with
                | Some true => [PublishResume]
                | _ => []
                end in
  let n := waiters s in
  (Nat.iter n schedulePrefetch (clear_waiters s),
   (global ++ repeat PublishResume n)%list).

Definition onTimer (s : State) (id : nat) : State * list Effect :=
  match timers s !! id with
  | Some t =>
      let s1 := clearTimeout s id in
      match t_cb t with
      | PrefetchCb key => performPrefetch s1 key
      | SafetyCb => (s1, [])
      end
  | None => (s, [])
  end.

Definition step (s : State) (e : Event) : State * list Effect :=
  match e with
  | OnTrigger c u => handleSongChange s c u
  | OnUpdate c u =>
      if negb (bool_decide (titleOfC c = titleOfC (currentSong s)))
      then handleSongChange s c u
      else if negb (bool_decide (titleOfU (upcomingSong s) = titleOfU u))
           then (schedulePrefetch (set_upcoming s u), [])
           else (s, [])
  | OnReturnData c u =>
      let s1 := set_songs s c u in
      match c, u with
      | Some _, Some _ => (schedulePrefetch s1, [])
      | _, _ => (s1, [])
      end
  | OnMessage ty paused =>
      if String.eqb ty "TTS_ENDED" then onTtsEnded s paused else (s, [])
  | OnTimer id => onTimer s id
  | OnStorageChanged b => (set_isEnabled s b, [])
  | OnInit b => (set_isEnabled s b, [PublishRequestData])
  end.

(** A session: the events in order, the effects accumulated. *)
Fixpoint run (s : State) (es : list Event) : State * list Effect :=
  match es with
  | [] => (s, [])
  | e :: es' =>
      let '(s1, out1) := step s e in
      let '(s2, out2) := run s1 es' in
      (s2, (out1 ++ out2)%list)
  end.

(** The pair a [PREWARM_RJ] message is for. *)
Definition prewarmKey (p : PrewarmPayload) : string :=
  pairKey (oldSongTitle p) (newSongTitle p).

(** The keys of the [PREWARM_RJ] messages among the effects, in order. *)
Fixpoint prewarmKeys (out : list Effect) : list string :=
  match out with
  | [] => []
  | PREWARM_RJ p :: out' => prewarmKey p :: prewarmKeys out'
  | _ :: out' => prewarmKeys out'
  end.

Definition publishesResume (out : list Effect) : bool :=
  existsb (fun e => match e with PublishResume => true | _ => false end) out.

End Content.

(** ** Sequences of playback-start calls *)

Module Plays.

(** A series of calls of the intercepted [play], one per element of [calls],
    with no other handler running in between: the results and the real
    actions, in order. *)
Definition playAll (t : Injector.Trap) (calls : list nat)
  : list PlayResult * list Action :=
  (map (fun el => fst (Injector.play t el)) calls,
   concat (map (fun el => snd (Injector.play t el)) calls)).

Definition playAllV1 (t : InjectorV1.Trap) (calls : list nat)
  : list PlayResult * list Action :=
  (map (fun el => fst (InjectorV1.play t el)) calls,
   concat (map (fun el => snd (InjectorV1.play t el)) calls)).

End Plays.

(** ** Concrete pages, traps and tracks used to exercise the definitions *)

Module Examples.

(** A page with a video element and neither queue nor player. *)
Definition bareHost : Host :=
  {| queueEl := JNull; moviePlayer := JNull; byline := None; video := Some 0%nat |}.

Definition md (title artist : string) : MediaMetadata :=
  {| md_title := title; md_artist := artist; md_album := "" |}.

Definition lockedTrap : Injector.Trap :=
  {| Injector.isLocked := true; Injector.currentTitle := JStr "B";
     Injector.lastUpcomingTitle := JStr ""; Injector._metadata := Some (md "B" "Y") |}.

Definition unlockedTrap : Injector.Trap :=
  {| Injector.isLocked := false; Injector.currentTitle := JStr "B";
     Injector.lastUpcomingTitle := JStr ""; Injector._metadata := Some (md "B" "Y") |}.

Definition lockedTrapV1 : InjectorV1.Trap :=
  {| InjectorV1.isLocked := true; InjectorV1.currentTitle := "B";
     InjectorV1._metadata := Some (md "B" "Y") |}.

Definition unlockedTrapV1 : InjectorV1.Trap :=
  {| InjectorV1.isLocked := false; InjectorV1.currentTitle := "B";
     InjectorV1._metadata := Some (md "B" "Y") |}.

End Examples.

(** ** The change test of the metadata setter *)

Module TrapSpec.

(** The assigned metadata is not [null] and its title is not the stored
    [currentTitle]. *)
Definition titleChanged (t : Injector.Trap) (nv : option MediaMetadata) : bool :=
  match nv with
  | Some m => negb (strictEqStr (md_title m) (Injector.currentTitle t))
  | None => false
  end.

Definition titleChangedV1 (t : InjectorV1.Trap) (nv : option MediaMetadata) : bool :=
  match nv with
  | Some m => negb (String.eqb (md_title m) (InjectorV1.currentTitle t))
  | None => false
  end.

(** The trap with its stored metadata replaced and nothing else touched. *)
Definition stored (t : Injector.Trap) (nv : option MediaMetadata) : Injector.Trap :=
  {| Injector.isLocked := Injector.isLocked t;
     Injector.currentTitle := Injector.currentTitle t;
     Injector.lastUpcomingTitle := Injector.lastUpcomingTitle t;
     Injector._metadata := nv |}.

Definition storedV1 (t : InjectorV1.Trap) (nv : option MediaMetadata)
  : InjectorV1.Trap :=
  {| InjectorV1.isLocked := InjectorV1.isLocked t;
     InjectorV1.currentTitle := InjectorV1.currentTitle t;
     InjectorV1._metadata := nv |}.

(** The real pause on the active video element, when there is one. *)
Definition pauseOf (h : Host) : list Action :=
  match video h with
  | Some v => [RealPause v]
  | None => []
  end.

End TrapSpec.

Module ExamplesTrap.
Import Examples.

(** The first assignment of a session, then Resume, then an assignment whose
    title is the empty string. *)
Definition afterA : Injector.Trap :=
  fst (Injector.set_metadata bareHost (Injector.initial None) (Some (md "A" "X"))).

Definition resumedA : Injector.Trap := fst (Injector.onResume bareHost afterA).

Definition emptyTitle : MediaMetadata := md "" "".

End ExamplesTrap.

(** ** The upcoming-track read in the words of the specification *)

Module ObserverSpec.
Import Js.

(** The renderer record an entry unwraps to, when it has one of the two
    envelope shapes. *)
Definition rendererOf (e : JsVal) : option JsVal :=
  match Queue.unwrap e with
  | Ok d => if truthy d then Some d else None
  | Throw => None
  end.

(** The entry is flagged selected. *)
Definition isSelected (e : JsVal) : bool :=
  match rendererOf e with
  | Some d => match get d "selected" with
              | Ok s => truthy s
              | Throw => false
              end
  | None => false
  end.

(** The text of the first run of a field of the renderer, or the default
    when it is missing. *)
Definition textOr (d : JsVal) (field default : string) : JsVal :=
  match x ← get d field; Queue.firstRunText x with
  | Ok v => if truthy v then v else JStr default
  | Throw => JStr default
  end.

(** A sub-list of the queue state: the iterable under [field], or the empty
    list when the field is missing. *)
Definition subList (queueState : JsVal) (field : string) : option (list JsVal) :=
  match get queueState field with
  | Ok v => if truthy v
            then match spread v with Ok l => Some l | Throw => None end
            else Some []
  | Throw => None
  end.

(** Scan for the first selected entry; absent if there is none or it is the
    last; otherwise the following entry's title and artist, with the
    defaults, provided that entry unwraps to a renderer record. *)
Definition readUpcoming (q : list JsVal) : option UpcomingSong :=
  match list_find (fun e => isSelected e = true) q with
  | None => None
  | Some (i, _) =>
      match q !! S i with
      | None => None
      | Some e =>
          match rendererOf e with
          | None => None
          | Some d =>
              Some {| up_title := textOr d "title" "Unknown Title";
                      up_artist := textOr d "longBylineText" "Unknown Artist" |}
          end
      end
  end.

End ObserverSpec.

Module ExamplesQueue.

Definition runs (text : string) : JsVal :=
  JObj [("runs", JArr [JObj [("text", JStr text)]])].

(** An entry in the first envelope shape. *)
Definition entry (title artist : string) (selected : bool) : JsVal :=
  JObj [("playlistPanelVideoRenderer",
         JObj [("title", runs title); ("longBylineText", runs artist);
               ("selected", JBool selected)])].

(** An entry in the second envelope shape. *)
Definition wrapped (title artist : string) (selected : bool) : JsVal :=
  JObj [("playlistPanelVideoWrapperRenderer",
         JObj [("primaryRenderer", entry title artist selected)])].

(** A page whose queue element exposes a store with the given queue state. *)
Definition hostOf (queueState : JsVal) : Host :=
  {| queueEl := JObj [("queue",
                       JObj [("store",
                              JObj [("getState",
                                     JFun (Some (JObj [("queue", queueState)])))])])];
     moviePlayer := JNull; byline := None; video := Some 0%nat |}.

Definition mainItems : list JsVal :=
  [entry "Song A" "Artist A" false; entry "Song B" "Artist B" true].

Definition automixItems : list JsVal :=
  [wrapped "Song C" "Artist C" false].

Definition queueState : JsVal :=
  JObj [("items", JArr mainItems); ("automixItems", JArr automixItems)].

(** The selected entry is followed by an entry of neither envelope shape. *)
Definition strayItems : list JsVal :=
  [entry "Song A" "Artist A" true; JObj []].

Definition strayState : JsVal := JObj [("items", JArr strayItems)].

(** A page whose store throws when asked for its state. *)
Definition throwingHost : Host :=
  {| queueEl := JObj [("store", JObj [("getState", JFun None)])];
     moviePlayer := JNull; byline := None; video := Some 0%nat |}.

End ExamplesQueue.

(** ** Views of the coordinator's state, and its coupling with the trap *)

Module ContentSpec.
Import Content.

(** The pair of the stored current and upcoming tracks, when both are there. *)
Definition livePair (s : State) : option string :=
  match currentSong s, upcomingSong s with
  | Some c, Some u => Some (pairKey (c_title c) (u_title u))
  | _, _ => None
  end.

(** The pending deferred check held in [prefetchTimer]: its key and delay. *)
Definition pendingPrefetch (s : State) : option (string * Z) :=
  id ← prefetchTimer s;
  t ← timers s !! id;
  match t_cb t with
  | PrefetchCb key => Some (key, t_delay t)
  | SafetyCb => None
  end.

(** Every pending deferred check is the one held in [prefetchTimer];
    timeout identifiers are positive. *)
Definition TimerInv (s : State) : Prop :=
  (forall id t key, timers s !! id = Some t -> t_cb t = PrefetchCb key ->
                    prefetchTimer s = Some id)
  /\ (forall id, prefetchTimer s = Some id -> id <> 0%nat)
  /\ nextTimerId s <> 0%nat.

(** The state after the [clearTimeout] line of [schedulePrefetch]. *)
Definition cleared (s : State) : State :=
  match prefetchTimer s with
  | Some id => if (id =? 0)%nat then s else clearTimeout s id
  | None => s
  end.

(** Every pending deferred check is for the pair [P]. *)
Definition OnlyFor (P : string) (s : State) : Prop :=
  forall id t key, timers s !! id = Some t -> t_cb t = PrefetchCb key -> key = P.

(** The Resume events among the effects reach the trap's listener, in
    order. *)
Definition deliver (h : Host) (t : Injector.Trap) (out : list Effect)
  : Injector.Trap :=
  fold_left (fun t e => match e with
                        | PublishResume => fst (Injector.onResume h t)
                        | _ => t
                        end) out t.

End ContentSpec.

Module ExamplesContent.
Import Content.

Definition songA : CurrentSong := {| c_title := "A"; c_artist := "X" |}.
Definition songB : CurrentSong := {| c_title := "B"; c_artist := "Y" |}.
Definition nextB : UpcomingSong := {| u_title := "B"; u_artist := "Y" |}.
Definition nextC : UpcomingSong := {| u_title := "C"; u_artist := "Z" |}.
Definition nextD : UpcomingSong := {| u_title := "D"; u_artist := "W" |}.

(** "A" is playing with "B" queued, as after the initial data pull. *)
Definition playingA : State :=
  fst (run initial [OnInit true; OnReturnData (Some songA) (Some nextB)]).

(** The same with the extension switched off. *)
Definition playingA_disabled : State :=
  fst (run initial [OnInit false; OnReturnData (Some songA) (Some nextB)]).

(** A track whose title holds the separator. *)
Definition songAB : CurrentSong := {| c_title := "A::B"; c_artist := "X" |}.
Definition songC : CurrentSong := {| c_title := "C"; c_artist := "Z" |}.

Definition playingAB : State :=
  fst (run initial [OnInit true; OnReturnData (Some songAB) None]).

End ExamplesContent.

Module ExamplesTimers.
Import Content ExamplesContent.

(** "B" arrives while "A" is stored: the check scheduled for "A::B" is
    still pending and the live pair is now "B::C". *)
Definition staleEvents : list Event :=
  [OnInit true; OnReturnData (Some songA) (Some nextB);
   OnTrigger (Some songB) (Some nextC)].

Definition stale : State := fst (run initial staleEvents).

Definition checkAB : Timer := {| t_delay := 15000; t_cb := PrefetchCb "A::B" |}.

End ExamplesTimers.

Module ExamplesSession.
Import Content ExamplesContent.

(** The pair "A::B" scheduled, its check fired, then scheduled and fired
    again. *)
Definition twice : list Event :=
  [OnInit true; OnReturnData (Some songA) (Some nextB); OnTimer 1;
   OnReturnData (Some songA) (Some nextB); OnTimer 2].

(** "B" has arrived while "A" was stored, just before the announce. *)
Definition arrivedB : State := set_songs playingA (Some songB) (Some nextC).

End ExamplesSession.

(** ** Where a separator occurs in a string *)

Module StrSpec.

(** The separator matches at none of the first [n] positions of [s]. *)
Fixpoint noMatchBefore (sep s : string) (n : nat) {struct n} : bool :=
  match n with
  | O => true
  | S n' =>
      negb (String.prefix sep s)
      && match s with
         | String _ s' => noMatchBefore sep s' n'
         | EmptyString => true
         end
  end.

(** The separator occurs nowhere in [s]. *)
Definition free (sep s : string) : bool := noMatchBefore sep s (String.length s).

(** No character of [s] is a colon. *)
Fixpoint colonFree (s : string) : bool :=
  match s with
  | EmptyString => true
  | String c s' => negb (Ascii.eqb c ":") && colonFree s'
  end.

End StrSpec.

(** ** The fields of the current-track read *)

Module StatusSpec.

Definition titleOf (md : option MediaMetadata) : string :=
  match md with Some m => md_title m | None => "" end.

Definition artistOf (md : option MediaMetadata) : string :=
  match md with Some m => md_artist m | None => "" end.

Definition albumOf (md : option MediaMetadata) : string :=
  match md with Some m => md_album m | None => "" end.

(** The separator of the byline, a bullet: three bytes in UTF-8. *)
Definition bullet : string := "•".

End StatusSpec.

Module ExamplesStatus.

(** A page showing "Artist • Album" in the player bar. *)
Definition bylineHost : Host :=
  {| queueEl := JNull; moviePlayer := JNull;
     byline := Some ("Artist " ++ StatusSpec.bullet ++ " Album")%string;
     video := Some 0%nat |}.

Definition trackB : CurrentSong :=
  {| cs_title := JStr "B"; cs_artist := JStr "Y"; cs_album := "Album";
     cs_isPaused := true |}.

End ExamplesStatus.

(** ** Sessions of the trap *)

Module TrapRun.

(** What reaches the trap: an assignment to the metadata on a page, a call of
    the intercepted [play] on an element, a data request, a Resume event. *)
Inductive TrapEvent : Type :=
| SetMetadata (h : Host) (newValue : option MediaMetadata)
| PlayCall (this : nat)
| RequestData (h : Host)
| Resume (h : Host).

Definition trapStep (t : Injector.Trap) (e : TrapEvent)
  : Injector.Trap * list Action :=
  match e with
  | SetMetadata h nv => Injector.set_metadata h t nv
  | PlayCall this => (t, snd (Injector.play t this))
  | RequestData h => Injector.onRequestData h t
  | Resume h => Injector.onResume h t
  end.

Fixpoint trapRun (t : Injector.Trap) (es : list TrapEvent)
  : Injector.Trap * list Action :=
  match es with
  | [] => (t, [])
  | e :: es' =>
      let '(t1, a1) := trapStep t e in
      let '(t2, a2) := trapRun t1 es' in
      (t2, (a1 ++ a2)%list)
  end.

Definition isResume (e : TrapEvent) : bool :=
  match e with Resume _ => true | _ => false end.

Definition isRealPlay (a : Action) : bool :=
  match a with RealPlay _ => true | _ => false end.

End TrapRun.

Module ExamplesTrapRun.
Import TrapRun.

(** Calls and assignments with no Resume among them. *)
Definition noResume : list TrapEvent :=
  [PlayCall 0;
   SetMetadata Examples.bareHost (Some (Examples.md "C" "Z"));
   RequestData Examples.bareHost;
   PlayCall 0].

(** A page without video element. *)
Definition noVideoHost : Host :=
  {| queueEl := JNull; moviePlayer := JNull; byline := None; video := None |}.

End ExamplesTrapRun.

(** ** Views of the coordinator's effects and events *)

Module EffectSpec.
Import Content.

Definition isAnnounce (e : Effect) : bool :=
  match e with SONG_ABOUT_TO_END _ => true | _ => false end.

(** The event switches the extension on. *)
Definition enables (e : Event) : bool :=
  match e with
  | OnStorageChanged b | OnInit b => b
  | _ => false
  end.

(** The [PREWARM_RJ] payload built from two stored tracks. *)
Definition prewarmOf (c : CurrentSong) (u : UpcomingSong) : PrewarmPayload :=
  {| oldSongTitle := c_title c; oldArtist := c_artist c;
     newSongTitle := u_title u; newArtist := u_artist u |}.

(** The number of Resume events among the effects. *)
Fixpoint resumes (out : list Effect) : nat :=
  match out with
  | [] => 0
  | PublishResume :: out' => S (resumes out')
  | _ :: out' => resumes out'
  end.

End EffectSpec.

Module ExamplesDisabled.
Import Content ExamplesContent.

(** A track change, a queue update, a timer and a completion signal, none of
    which switches the extension on. *)
Definition events : list Event :=
  [OnTrigger (Some songB) (Some nextC); OnUpdate (Some songB) (Some nextD);
   OnTimer 1; OnMessage "TTS_ENDED" (Some true); OnStorageChanged false].

End ExamplesDisabled.

Module ExamplesNoUpcoming.
Import Content ExamplesContent.

(** The queue's end is reached: the upcoming track becomes unknown. *)
Definition events : list Event :=
  [OnInit true; OnReturnData (Some songA) (Some nextB);
   OnReturnData (Some songA) None].

End ExamplesNoUpcoming.

Module ExamplesNbsp.

(** U+00A0, the no-break space. *)
Definition nbsp : string := String "194"%char (String "160"%char "").

(** A page showing "Artist •", a no-break space, "Album" and another
    no-break space in the player bar. *)
Definition host : Host :=
  {| queueEl := JNull; moviePlayer := JNull;
     byline := Some ("Artist " ++ StatusSpec.bullet ++ nbsp ++ "Album" ++ nbsp)%string;
     video := Some 0%nat |}.

End ExamplesNbsp.

(** ** Executions in which an announce keeps waiting *)

Module AnnounceSpec.
Import Content.

(** The event is no completion signal, does not switch the extension off,
    and, when it brings tracks, brings a current one. *)
Definition keepsWaiting (e : Event) : bool :=
  match e with
  | OnTrigger c _ | OnUpdate c _ | OnReturnData c _ =>
      match c with Some _ => true | None => false end
  | OnMessage ty _ => negb (String.eqb ty "TTS_ENDED")
  | OnTimer _ => true
  | OnStorageChanged b | OnInit b => b
  end.

(** The extension is on and a current track is stored: a track change would
    be announced. *)
Definition Announcing (s : State) : Prop :=
  isEnabled s = true /\ currentSong s <> None.

(** The song-change handler runs on the event and takes one of its branches
    that publish Resume at once: the extension is off, no track is stored or
    none arrives. *)
Definition gatedChange (s : State) (e : Event) : Prop :=
  exists c u, (e = OnTrigger c u \/ e = OnUpdate c u)
              /\ (isEnabled s = false \/ currentSong s = None \/ c = None).

End AnnounceSpec.

Module ExamplesStuck.
Import Content ExamplesContent.

(** The announce for "A" to "B" has been requested. *)
Definition announced : State :=
  fst (step playingA (OnTrigger (Some songB) (Some nextC))).

(** The extension is switched off, then "C" arrives; no completion signal. *)
Definition switchedOff : list Event :=
  [OnStorageChanged false; OnTrigger (Some songC) (Some nextD)].

(** A queue update, "C" arriving, timers and an unrelated message; no
    completion signal. *)
Definition waiting : list Event :=
  [OnUpdate (Some songB) (Some nextD); OnTimer 2; OnTimer 1;
   OnTrigger (Some songC) (Some nextD); OnMessage "PING" (Some true);
   OnTimer 3].

End ExamplesStuck.

(** * Properties *)

(** ** The playback lock *)

Lemma playAll_locked (t : Injector.Trap) (calls : list nat) :
  Injector.isLocked t = true ->
  Plays.playAll t calls = (map (fun _ => ResolvedTrivially) calls, []).
Proof.
  intros Hl. unfold Plays.playAll, Injector.play. rewrite Hl. simpl.
  f_equal. induction calls as [|c cs IH]; simpl; auto.
Qed.

Lemma playAllV1_locked (t : InjectorV1.Trap) (calls : list nat) :
  InjectorV1.isLocked t = true ->
  Plays.playAllV1 t calls = (map (fun _ => ResolvedTrivially) calls, []).
Proof.
  intros Hl. unfold Plays.playAllV1, InjectorV1.play. rewrite Hl. simpl.
  f_equal. induction calls as [|c cs IH]; simpl; auto.
Qed.

(** C1. Lock exclusivity, for both injectors.  While [isLocked] is true a
    series of playback-start calls engages no real playback and each call
    reports trivial success; while it is false a call is forwarded unchanged
    to the real [play] on its element; the Resume handler clears the lock and
    calls the real [play] on the active video element, and the first
    playback-start call after it starts real playback. *)
Theorem lock_exclusivity (h : Host) (t : Injector.Trap) (t1 : InjectorV1.Trap)
    (calls : list nat) (this : nat) :
  (Injector.isLocked t = true ->
     Plays.playAll t calls = (map (fun _ => ResolvedTrivially) calls, []))
  /\ (Injector.isLocked t = false ->
        Injector.play t this = (FromOriginalPlay this, [RealPlay this]))
  /\ (Injector.isLocked (fst (Injector.onResume h t)) = false
      /\ snd (Injector.onResume h t)
         = match video h with Some v => [RealPlay v] | None => [] end
      /\ Injector.play (fst (Injector.onResume h t)) this
         = (FromOriginalPlay this, [RealPlay this]))
  /\ (InjectorV1.isLocked t1 = true ->
        Plays.playAllV1 t1 calls = (map (fun _ => ResolvedTrivially) calls, []))
  /\ (InjectorV1.isLocked t1 = false ->
        InjectorV1.play t1 this = (FromOriginalPlay this, [RealPlay this]))
  /\ (InjectorV1.isLocked (fst (InjectorV1.onResume h t1)) = false
      /\ snd (InjectorV1.onResume h t1)
         = match video h with Some v => [RealPlay v] | None => [] end
      /\ InjectorV1.play (fst (InjectorV1.onResume h t1)) this
         = (FromOriginalPlay this, [RealPlay this])).
Proof.
  repeat split.
  - apply playAll_locked.
  - intros Hl. unfold Injector.play. now rewrite Hl.
  - apply playAllV1_locked.
  - intros Hl. unfold InjectorV1.play. now rewrite Hl.
Qed.

Lemma lock_exclusivity_witness :
  Plays.playAll Examples.lockedTrap [1; 2]%nat
    = ([ResolvedTrivially; ResolvedTrivially], [])
  /\ Injector.play Examples.unlockedTrap 7%nat
     = (FromOriginalPlay 7%nat, [RealPlay 7%nat])
  /\ Plays.playAllV1 Examples.lockedTrapV1 [1; 2]%nat
     = ([ResolvedTrivially; ResolvedTrivially], [])
  /\ InjectorV1.play Examples.unlockedTrapV1 7%nat
     = (FromOriginalPlay 7%nat, [RealPlay 7%nat]).
Proof.
  destruct (lock_exclusivity Examples.bareHost Examples.lockedTrap
              Examples.lockedTrapV1 [1; 2]%nat 7%nat)
    as (L & _ & _ & L1 & _).
  destruct (lock_exclusivity Examples.bareHost Examples.unlockedTrap
              Examples.unlockedTrapV1 [1; 2]%nat 7%nat)
    as (_ & U & _ & _ & U1 & _).
  split; [apply L; reflexivity|].
  split; [apply U; reflexivity|].
  split; [apply L1; reflexivity|apply U1; reflexivity].
Defined.

(** ** The metadata setter *)

Section TrapAssignment.
Import Js.

Lemma orElse_truthy (a : JsVal) (b : Res JsVal) :
  truthy a = true -> orElse a b = Ok a.
Proof. intros H. unfold orElse. now rewrite H. Qed.

Lemma orElse_falsy (a : JsVal) (b : Res JsVal) :
  truthy a = false -> orElse a b = b.
Proof. intros H. unfold orElse. now rewrite H. Qed.

(** With a non-empty title in the platform metadata, the current-track read
    reports that title. *)
Lemma getPlayerStatus_title (h : Host) (m : MediaMetadata) (c : CurrentSong) :
  Injector.getPlayerStatus h (Some m) = Some c ->
  md_title m <> "" ->
  cs_title c = JStr (md_title m).
Proof.
  intros Hc Hne.
  unfold Injector.getPlayerStatus, Injector.getPlayerStatus_body, tryCatchNull in Hc.
  assert (Ht : truthy (JStr (md_title m)) = true).
  { simpl. destruct (String.eqb_spec (md_title m) ""); [contradiction|reflexivity]. }
  destruct (optGet (moviePlayer h) "getVideoData") as [gv|]; simpl in Hc; [|discriminate].
  destruct (if truthy gv then call gv else Ok JNull) as [vd|]; simpl in Hc; [|discriminate].
  rewrite (orElse_truthy (JStr (md_title m))) in Hc by exact Ht. simpl in Hc.
  destruct (orElse (JStr (md_artist m)) _) as [ar|]; simpl in Hc; [|discriminate].
  destruct (optGet (moviePlayer h) "getPlayerState") as [gp|]; simpl in Hc; [|discriminate].
  destruct (if truthy gp then _ else _) as [ip|]; simpl in Hc; [|discriminate].
  injection Hc as <-. reflexivity.
Qed.

Lemma broadcast_isLocked mk reason h t :
  Injector.isLocked (fst (Injector.broadcast mk reason h t)) = Injector.isLocked t.
Proof.
  unfold Injector.broadcast.
  destruct (Injector.getPlayerStatus h (Injector._metadata t)); reflexivity.
Qed.

Lemma broadcast_metadata mk reason h t :
  Injector._metadata (fst (Injector.broadcast mk reason h t)) = Injector._metadata t.
Proof.
  unfold Injector.broadcast.
  destruct (Injector.getPlayerStatus h (Injector._metadata t)); reflexivity.
Qed.

(** Running the Resume listener before or after [broadcast] leaves the trap
    in the same state. *)
Lemma broadcast_onResume_commute mk reason (h h' : Host) (t : Injector.Trap) :
  fst (Injector.broadcast mk reason h (fst (Injector.onResume h' t)))
  = fst (Injector.onResume h' (fst (Injector.broadcast mk reason h t))).
Proof.
  unfold Injector.broadcast, Injector.onResume. cbn.
  destruct (Injector.getPlayerStatus h (Injector._metadata t)); reflexivity.
Qed.

End TrapAssignment.

Section TrapPostcondition.
Import Js TrapSpec.

Lemma set_metadata_inert (h : Host) (t : Injector.Trap) (nv : option MediaMetadata) :
  titleChanged t nv = false ->
  Injector.set_metadata h t nv = (stored t nv, []).
Proof.
  unfold titleChanged, Injector.set_metadata, stored.
  destruct nv as [m|]; [|reflexivity].
  intros ->. reflexivity.
Qed.

Lemma set_metadata_changed (h : Host) (t : Injector.Trap) (nv : option MediaMetadata) :
  titleChanged t nv = true ->
  Injector.isLocked (fst (Injector.set_metadata h t nv)) = true
  /\ Injector._metadata (fst (Injector.set_metadata h t nv)) = nv
  /\ match Injector.getPlayerStatus h nv with
     | Some c =>
         snd (Injector.set_metadata h t nv)
         = (pauseOf h ++
            [Dispatch (EVENT_TRIGGER
               (Some {| d_currentSong := c;
                        d_upcomingSong := Injector.getNextSongData h;
                        d_reason := "SONG_CHANGED" |}))])%list
         /\ Injector.currentTitle (fst (Injector.set_metadata h t nv)) = cs_title c
     | None =>
         snd (Injector.set_metadata h t nv) = pauseOf h
         /\ Injector.currentTitle (fst (Injector.set_metadata h t nv))
            = Injector.currentTitle t
     end.
Proof.
  unfold titleChanged, Injector.set_metadata, Injector.broadcast, pauseOf.
  destruct nv as [m|]; [|discriminate].
  intros ->. cbn [Injector._metadata Injector.isLocked].
  destruct (Injector.getPlayerStatus h (Some m)) as [c|]; cbn.
  - repeat split; reflexivity.
  - repeat split; try reflexivity. now rewrite app_nil_r.
Qed.

Lemma strictEqStr_refl (s : string) : strictEqStr s (JStr s) = true.
Proof. simpl. apply String.eqb_refl. Qed.

End TrapPostcondition.

(** C3, as the code has it.  Every assignment is stored and read back.  In
    the injector that broadcasts snapshots, exactly when the assigned metadata
    is not null and its title differs from the stored title, the trap locks and
    pauses the active video element when there is one, then takes a snapshot:
    when the current-track read is not absent it publishes Trigger with the
    snapshot and stores the snapshot's title, which is the assigned title when
    that is not empty, so that repeating the assignment is inert; any other
    assignment is inert.  In the earlier injector the same test stores the
    assigned title, and the lock, the pause and a Trigger without snapshot
    follow only when there is a video element. *)
Theorem trap_assignment_postcondition (h : Host) (t : Injector.Trap)
    (t1 : InjectorV1.Trap) (nv : option MediaMetadata) :
  let r := Injector.set_metadata h t nv in
  let r1 := InjectorV1.set_metadata h t1 nv in
  Injector.get_metadata (fst r) = nv
  /\ (TrapSpec.titleChanged t nv = false -> r = (TrapSpec.stored t nv, []))
  /\ (TrapSpec.titleChanged t nv = true ->
        Injector.isLocked (fst r) = true
        /\ match Injector.getPlayerStatus h nv with
           | Some c =>
               snd r = (TrapSpec.pauseOf h ++
                        [Dispatch (EVENT_TRIGGER
                           (Some {| d_currentSong := c;
                                    d_upcomingSong := Injector.getNextSongData h;
                                    d_reason := "SONG_CHANGED" |}))])%list
               /\ Injector.currentTitle (fst r) = cs_title c
               /\ (forall m, nv = Some m -> md_title m <> "" ->
                     Injector.currentTitle (fst r) = JStr (md_title m)
                     /\ forall h', Injector.set_metadata h' (fst r) nv
                                   = (TrapSpec.stored (fst r) nv, []))
           | None =>
               snd r = TrapSpec.pauseOf h
               /\ Injector.currentTitle (fst r) = Injector.currentTitle t
           end)
  /\ InjectorV1.get_metadata (fst r1) = nv
  /\ (TrapSpec.titleChangedV1 t1 nv = false -> r1 = (TrapSpec.storedV1 t1 nv, []))
  /\ (TrapSpec.titleChangedV1 t1 nv = true ->
        (forall m, nv = Some m -> InjectorV1.currentTitle (fst r1) = md_title m)
        /\ match video h with
           | Some v =>
               InjectorV1.isLocked (fst r1) = true
               /\ snd r1 = [RealPause v; Dispatch (EVENT_TRIGGER None)]
           | None =>
               InjectorV1.isLocked (fst r1) = InjectorV1.isLocked t1
               /\ snd r1 = []
           end).
Proof.
  intros r r1. subst r r1.
  split.
  { unfold Injector.get_metadata.
    destruct (TrapSpec.titleChanged t nv) eqn:E.
    - apply (set_metadata_changed h) in E. tauto.
    - now rewrite (set_metadata_inert h _ _ E). }
  split; [apply set_metadata_inert|].
  split.
  { intros E. pose proof (set_metadata_changed h t nv E) as (Hl & Hm & Hs).
    split; [exact Hl|].
    destruct (Injector.getPlayerStatus h nv) as [c|] eqn:Ec; [|exact Hs].
    destruct Hs as (Ha & Ht). repeat split; try assumption.
    - rewrite Ht. subst nv. now apply (getPlayerStatus_title h).
    - intros h'. apply set_metadata_inert.
      unfold TrapSpec.titleChanged. subst nv. rewrite Ht.
      rewrite (getPlayerStatus_title h m c Ec H0).
      now rewrite strictEqStr_refl. }
  unfold InjectorV1.set_metadata, InjectorV1.get_metadata,
    TrapSpec.titleChangedV1, TrapSpec.storedV1.
  destruct nv as [m|]; cbn.
  - destruct (String.eqb (md_title m) (InjectorV1.currentTitle t1)); cbn.
    + repeat split; try discriminate; reflexivity.
    + destruct (video h); cbn; repeat split; try discriminate; try reflexivity;
        intros m' [= <-]; reflexivity.
  - repeat split; try discriminate; reflexivity.
Qed.

Lemma trap_assignment_postcondition_witness :
  Injector.isLocked
    (fst (Injector.set_metadata Examples.bareHost Examples.unlockedTrap
            (Some (Examples.md "C" "Z")))) = true
  /\ Injector.set_metadata Examples.bareHost Examples.unlockedTrap
       (Some (Examples.md "B" "Y"))
     = (TrapSpec.stored Examples.unlockedTrap (Some (Examples.md "B" "Y")), [])
  /\ InjectorV1.set_metadata Examples.bareHost Examples.unlockedTrapV1
       (Some (Examples.md "B" "Y"))
     = (TrapSpec.storedV1 Examples.unlockedTrapV1 (Some (Examples.md "B" "Y")), []).
Proof.
  destruct (trap_assignment_postcondition Examples.bareHost Examples.unlockedTrap
              Examples.unlockedTrapV1 (Some (Examples.md "C" "Z")))
    as (_ & _ & C & _).
  destruct (trap_assignment_postcondition Examples.bareHost Examples.unlockedTrap
              Examples.unlockedTrapV1 (Some (Examples.md "B" "Y")))
    as (_ & I & _ & _ & I1 & _).
  split; [apply C; reflexivity|].
  split; [apply I; reflexivity|apply I1; reflexivity].
Defined.

(** C3, as stated, fails: with "A" stored as the last known title and the
    lock released, assigning metadata whose title is the empty string locks
    the trap and pauses the video. *)
Lemma trap_locks_on_empty_title :
  Injector.currentTitle ExamplesTrap.resumedA = JStr "A"
  /\ Injector.isLocked ExamplesTrap.resumedA = false
  /\ md_title ExamplesTrap.emptyTitle = ""
  /\ Injector.isLocked
       (fst (Injector.set_metadata Examples.bareHost ExamplesTrap.resumedA
               (Some ExamplesTrap.emptyTitle))) = true
  /\ snd (Injector.set_metadata Examples.bareHost ExamplesTrap.resumedA
            (Some ExamplesTrap.emptyTitle))
     = [RealPause 0%nat;
        Dispatch (EVENT_TRIGGER
          (Some {| d_currentSong :=
                     {| cs_title := JStr ""; cs_artist := JStr "";
                        cs_album := ""; cs_isPaused := true |};
                   d_upcomingSong := None;
                   d_reason := "SONG_CHANGED" |}))].
Proof. repeat split. Qed.

(** ** The upcoming-track read *)

Section ReadUpcoming.
Import Js ObserverSpec.

Lemma get_ok (v : JsVal) (p : string) :
  nullish v = false -> exists x, get v p = Ok x.
Proof. destruct v; simpl; try discriminate; eauto. Qed.

Lemma optGet_ok (v : JsVal) (p : string) : exists x, optGet v p = Ok x.
Proof.
  unfold optGet. destruct (nullish v) eqn:E; [eauto|]. now apply get_ok.
Qed.

Lemma optIdx0_ok (v : JsVal) : exists x, optIdx0 v = Ok x.
Proof. destruct v; simpl; eauto. Qed.

Lemma truthy_not_nullish (v : JsVal) : truthy v = true -> nullish v = false.
Proof. destruct v; simpl; auto; discriminate. Qed.

Lemma unwrap_ok (e : JsVal) : nullish e = false -> exists d, Queue.unwrap e = Ok d.
Proof.
  intros Hn. unfold Queue.unwrap.
  destruct (get_ok e "playlistPanelVideoRenderer" Hn) as [a ->]. cbn.
  unfold orElse. destruct (truthy a); [eauto|].
  destruct (get_ok e "playlistPanelVideoWrapperRenderer" Hn) as [w ->]. cbn.
  destruct (optGet_ok w "primaryRenderer") as [p ->]. cbn.
  apply optGet_ok.
Qed.

Lemma firstRunText_ok (x : JsVal) : exists v, Queue.firstRunText x = Ok v.
Proof.
  unfold Queue.firstRunText.
  destruct (optGet_ok x "runs") as [r ->]. cbn.
  destruct (optIdx0_ok r) as [r0 ->]. cbn.
  apply optGet_ok.
Qed.

(** The loop stops at the first selected entry. *)
Lemma findSelected_find (q : list JsVal) (i : Z) :
  Forall (fun e => nullish e = false) q ->
  Queue.findSelected q i
  = Ok (match list_find (fun e => isSelected e = true) q with
        | Some (k, _) => i + Z.of_nat k
        | None => -1
        end).
Proof.
  intros Hq. revert i. induction Hq as [|e q He Hq IH]; intros i; [reflexivity|].
  cbn [Queue.findSelected list_find].
  destruct (unwrap_ok e He) as [d Hd].
  assert (Hsel : isSelected e
                 = if truthy d
                   then match get d "selected" with Ok s => truthy s | Throw => false end
                   else false).
  { unfold isSelected, rendererOf. rewrite Hd. now destruct (truthy d). }
  destruct (decide (isSelected e = true)) as [Y|N]; rewrite Hsel in *;
    rewrite Hd; cbn.
  - destruct (truthy d); [|discriminate].
    destruct (get d "selected") as [s|]; [|discriminate]. cbn.
    rewrite Y. f_equal. lia.
  - rewrite IH.
    destruct (truthy d) eqn:Td.
    + destruct (get_ok d "selected" (truthy_not_nullish d Td)) as [s Hs].
      rewrite Hs in *. cbn. destruct (truthy s); [congruence|].
      destruct (list_find _ q) as [[k x]|]; cbn; f_equal; lia.
    + destruct (list_find _ q) as [[k x]|]; cbn; f_equal; lia.
Qed.

End ReadUpcoming.

Section NextOf.
Import Js ObserverSpec.

Lemma subList_inv (qs : JsVal) (f : string) (l : list JsVal) :
  subList qs f = Some l ->
  exists v, get qs f = Ok v
            /\ exists m, orElse v (Ok (JArr [])) = Ok m /\ spread m = Ok l.
Proof.
  unfold subList, orElse. destruct (get qs f) as [v|]; [|discriminate].
  intros H. exists v. split; [reflexivity|].
  destruct (truthy v).
  - exists v. split; [reflexivity|]. destruct (spread v); congruence.
  - exists (JArr []). split; [reflexivity|]. simpl. congruence.
Qed.

Lemma at_index_lookup (q : list JsVal) (k : nat) :
  Queue.at_index q (0 + Z.of_nat k + 1)
  = match q !! S k with Some e => e | None => JUndefined end.
Proof.
  unfold Queue.at_index.
  destruct (Z.ltb_spec (0 + Z.of_nat k + 1) 0); [lia|].
  replace (Z.to_nat (0 + Z.of_nat k + 1)) with (S k) by lia.
  reflexivity.
Qed.

Lemma textOr_eq (d : JsVal) (f dflt : string) :
  truthy d = true ->
  (t ← get d f; tt ← Queue.firstRunText t; orElse tt (Ok (JStr dflt)))
  = Ok (textOr d f dflt).
Proof.
  intros Td. unfold textOr.
  destruct (get_ok d f (truthy_not_nullish d Td)) as [t ->]. cbn.
  destruct (firstRunText_ok t) as [tt ->]. cbn.
  unfold orElse. now destruct (truthy tt).
Qed.

(** The second half of [getNextSongData] on a queue state whose two
    sub-lists can be iterated and hold no [null] or [undefined] entry. *)
Lemma nextOf_readUpcoming (qs : JsVal) (main automix : list JsVal) :
  subList qs "items" = Some main ->
  subList qs "automixItems" = Some automix ->
  Forall (fun e => nullish e = false) (main ++ automix) ->
  Queue.nextOf qs = Ok (readUpcoming (main ++ automix)).
Proof.
  intros Hm Ha Hq.
  destruct (subList_inv _ _ _ Hm) as (i & Hi & mi & Hmi & Hl1).
  destruct (subList_inv _ _ _ Ha) as (a & Hga & ma & Hma & Hl2).
  unfold Queue.nextOf.
  rewrite Hi. cbn. rewrite Hmi. cbn. rewrite Hga. cbn. rewrite Hma. cbn.
  rewrite Hl1. cbn. rewrite Hl2. cbn.
  set (q := (main ++ automix)%list) in *.
  destruct (Z.eqb_spec (Z.of_nat (length q)) 0) as [El|El].
  { destruct q; [reflexivity|simpl in El; lia]. }
  rewrite (findSelected_find q 0 Hq). cbn.
  unfold readUpcoming.
  destruct (list_find _ q) as [[k x]|] eqn:Ef; cbn; [|reflexivity].
  destruct (Z.eqb_spec (0 + Z.of_nat k) (-1)); [lia|]. cbn.
  destruct (Z.ltb_spec (0 + Z.of_nat k) (Z.of_nat (length q) - 1)) as [Ek|Ek].
  - rewrite at_index_lookup.
    destruct (q !! S k) as [e|] eqn:Ee.
    2:{ apply lookup_ge_None in Ee. lia. }
    assert (He : nullish e = false).
    { rewrite Forall_forall in Hq. apply Hq.
      eapply list_elem_of_lookup_2; eauto. }
    unfold rendererOf.
    destruct (unwrap_ok e He) as [d ->]. cbn.
    destruct (truthy d) eqn:Td; [|reflexivity].
    pose proof (textOr_eq d "title" "Unknown Title" Td) as Ht.
    pose proof (textOr_eq d "longBylineText" "Unknown Artist" Td) as Hb.
    destruct (get d "title") as [t|]; cbn in Ht |- *; [|discriminate].
    destruct (Queue.firstRunText t) as [tt|]; cbn in Ht |- *; [|discriminate].
    rewrite Ht. cbn.
    destruct (get d "longBylineText") as [b|]; cbn in Hb |- *; [|discriminate].
    destruct (Queue.firstRunText b) as [bt|]; cbn in Hb |- *; [|discriminate].
    rewrite Hb. reflexivity.
  - destruct (q !! S k) as [e|] eqn:Ee; [|reflexivity].
    apply lookup_lt_Some in Ee. lia.
Qed.

End NextOf.

(** C6, as the code has it.  On a page whose queue state is reached, whose
    main and automix sub-lists can be iterated and hold no null or undefined
    entry, both injectors return what [ObserverSpec.readUpcoming] says of the
    concatenated list: absent when no entry is selected or the first selected
    entry is the last; otherwise the following entry's title and artist with
    the defaults "Unknown Title" and "Unknown Artist", and absent when that
    following entry unwraps to no renderer record. *)
Theorem read_upcoming_algorithm (h : Host) (qs : JsVal)
    (main automix : list JsVal) :
  Js.truthy qs = true ->
  ObserverSpec.subList qs "items" = Some main ->
  ObserverSpec.subList qs "automixItems" = Some automix ->
  Forall (fun e => Js.nullish e = false) (main ++ automix) ->
  (Injector.queueStateOf h = Ok (Some qs) ->
     Injector.getNextSongData h = ObserverSpec.readUpcoming (main ++ automix))
  /\ (InjectorV1.queueStateOf h = Ok qs ->
        InjectorV1.getNextSongData h
        = Ok (ObserverSpec.readUpcoming (main ++ automix))).
Proof.
  intros Tq Hm Ha Hq.
  pose proof (nextOf_readUpcoming qs main automix Hm Ha Hq) as Hn.
  split; intros Hs.
  - unfold Injector.getNextSongData, Injector.getNextSongData_body.
    rewrite Hs. cbn. rewrite Tq. cbn. now rewrite Hn.
  - unfold InjectorV1.getNextSongData.
    rewrite Hs. cbn. rewrite Tq. cbn. exact Hn.
Qed.

Lemma read_upcoming_algorithm_witness :
  Injector.getNextSongData (ExamplesQueue.hostOf ExamplesQueue.queueState)
  = Some {| up_title := JStr "Song C"; up_artist := JStr "Artist C" |}
  /\ InjectorV1.getNextSongData (ExamplesQueue.hostOf ExamplesQueue.queueState)
     = Ok (Some {| up_title := JStr "Song C"; up_artist := JStr "Artist C" |}).
Proof.
  assert (F : Forall (fun e => Js.nullish e = false)
                (ExamplesQueue.mainItems ++ ExamplesQueue.automixItems)).
  { repeat constructor. }
  destruct (read_upcoming_algorithm
              (ExamplesQueue.hostOf ExamplesQueue.queueState)
              ExamplesQueue.queueState
              ExamplesQueue.mainItems ExamplesQueue.automixItems
              eq_refl eq_refl eq_refl F) as [A B].
  split.
  - rewrite (A eq_refl). reflexivity.
  - rewrite (B eq_refl). reflexivity.
Defined.

(** C6, as stated, fails: the selected entry is first of two, so it is found
    and is not the last, yet the read is absent because the entry after it has
    neither envelope shape. *)
Lemma read_upcoming_absent_on_stray_entry :
  Queue.findSelected ExamplesQueue.strayItems 0 = Ok 0
  /\ length ExamplesQueue.strayItems = 2%nat
  /\ Injector.getNextSongData (ExamplesQueue.hostOf ExamplesQueue.strayState) = None
  /\ InjectorV1.getNextSongData (ExamplesQueue.hostOf ExamplesQueue.strayState)
     = Ok None.
Proof. repeat split. Qed.

(** ** The error policy of the reads *)

(** In the injector that broadcasts snapshots, an exception inside either
    read becomes the absent value. *)
Lemma injector_reads_catch (h : Host) (md : option MediaMetadata) :
  (Injector.getNextSongData_body h = Throw -> Injector.getNextSongData h = None)
  /\ (Injector.getPlayerStatus_body h md = Throw ->
        Injector.getPlayerStatus h md = None).
Proof.
  unfold Injector.getNextSongData, Injector.getPlayerStatus, Js.tryCatchNull.
  split; intros ->; reflexivity.
Qed.

(** C7 fails in the earlier injector: its upcoming-track read has no
    exception guard, and on a page whose store throws from [getState] the
    exception reaches the caller, where the guarded read of the other injector
    returns absent. *)
Theorem upcoming_read_propagates_exception :
  InjectorV1.getNextSongData ExamplesQueue.throwingHost = Throw
  /\ Injector.getNextSongData ExamplesQueue.throwingHost = None.
Proof. split; reflexivity. Qed.

(** ** Pair keys and the announce message *)

Section PairKeys.
Import Content.

Lemma append_assoc (a b c : string) : ((a ++ b) ++ c = a ++ (b ++ c))%string.
Proof.
  induction a as [|x a IH]; [reflexivity|].
  change (String x ((a ++ b) ++ c) = String x (a ++ (b ++ c)))%string.
  now rewrite IH.
Qed.

Lemma length_append (a b : string) :
  String.length (a ++ b) = (String.length a + String.length b)%nat.
Proof.
  induction a as [|x a IH]; [reflexivity|].
  change (S (String.length (a ++ b)) = S (String.length a + String.length b)).
  now rewrite IH.
Qed.

Lemma pairKey_assoc (a b c : string) :
  pairKey (pairKey a b) c = pairKey a (pairKey b c).
Proof. unfold pairKey. now rewrite append_assoc. Qed.

Lemma pairKey_longer (a b : string) : pairKey a b <> b.
Proof.
  intros H. apply (f_equal String.length) in H.
  unfold pairKey in H. rewrite !length_append in H. simpl in H. lia.
Qed.

End PairKeys.

(** C10. The pair key is not injective: for all titles a, b and c the
    distinct title pairs (a::b, c) and (a, b::c) have the same key, for
    instance ("A::B","C") and ("A","B::C").  The announce message does not
    carry the stored titles back: with "A::B" stored and "C" arriving, it
    names "A" as the previous title and "B" as the new one. *)
Theorem pairKey_not_injective :
  (forall a b c : string,
      (Content.pairKey a b, c) <> (a, Content.pairKey b c)
      /\ Content.pairKey (Content.pairKey a b) c
         = Content.pairKey a (Content.pairKey b c))
  /\ Content.pairKey "A::B" "C" = Content.pairKey "A" "B::C"
  /\ Content.currentSong ExamplesContent.playingAB = Some ExamplesContent.songAB
  /\ snd (Content.step ExamplesContent.playingAB
            (Content.OnTrigger (Some ExamplesContent.songC) None))
     = [Content.SONG_ABOUT_TO_END
          {| Content.currentSongTitle := Some "A";
             Content.currentSongArtist := "Unknown";
             Content.upcomingSongTitle := Some "B";
             Content.upcomingSongArtist := "Z" |}].
Proof.
  split; [|repeat split].
  intros a b c. split; [|apply pairKey_assoc].
  intros [= _ H]. symmetry in H. now apply pairKey_longer in H.
Qed.

(** C9 fails on the previous artist: with "A" by "X" stored and "B" by "Y"
    arriving, the announce message names "Unknown" as the previous artist. *)
Theorem announce_payload_drops_previous_artist :
  Content.currentSong ExamplesContent.playingA = Some ExamplesContent.songA
  /\ snd (Content.step ExamplesContent.playingA
            (Content.OnTrigger (Some ExamplesContent.songB)
                               (Some ExamplesContent.nextC)))
     = [Content.SONG_ABOUT_TO_END
          {| Content.currentSongTitle := Some "A";
             Content.currentSongArtist := "Unknown";
             Content.upcomingSongTitle := Some "B";
             Content.upcomingSongArtist := "Y" |}].
Proof. split; reflexivity. Qed.

(** ** Prefetch deduplication *)

Section Dedup.
Import Content.

Lemma prewarmKeys_app (o1 o2 : list Effect) :
  prewarmKeys (o1 ++ o2) = (prewarmKeys o1 ++ prewarmKeys o2)%list.
Proof.
  induction o1 as [|e o1 IH]; [reflexivity|].
  destruct e; simpl; now rewrite IH.
Qed.

Lemma prewarmKeys_repeat_resume (n : nat) :
  prewarmKeys (repeat PublishResume n) = [].
Proof. induction n; simpl; auto. Qed.

Lemma schedulePrefetch_processed (s : State) :
  processedPairs (schedulePrefetch s) = processedPairs s.
Proof.
  unfold schedulePrefetch, clearTimeout, setTimeout, set_prefetchTimer.
  repeat case_match; reflexivity.
Qed.

Lemma iter_schedule_processed (n : nat) (s : State) :
  processedPairs (Nat.iter n schedulePrefetch s) = processedPairs s.
Proof.
  induction n as [|n IH]; [reflexivity|].
  simpl. now rewrite schedulePrefetch_processed.
Qed.

Lemma handleSongChange_processed (s : State) c u :
  processedPairs (fst (handleSongChange s c u)) = processedPairs s
  /\ prewarmKeys (snd (handleSongChange s c u)) = [].
Proof.
  unfold handleSongChange, triggerAnnounce, setTimeout, set_songs.
  destruct (isEnabled s); cbn; [|auto].
  destruct (currentSong s), c; cbn; rewrite ?schedulePrefetch_processed; auto.
Qed.

(** The deferred check either leaves the set alone and sends nothing, or
    sends one request, for its own key, which it adds to the set. *)
Lemma performPrefetch_cases (s : State) (key : string) :
  (performPrefetch s key = (s, []))
  \/ ((key ∉ processedPairs s)
      /\ processedPairs (fst (performPrefetch s key)) = {[ key ]} ∪ processedPairs s
      /\ prewarmKeys (snd (performPrefetch s key)) = [key]).
Proof.
  unfold performPrefetch.
  destruct (currentSong s) as [c|]; [|now left].
  destruct (upcomingSong s) as [u|]; [|now left].
  destruct (String.eqb_spec (pairKey (c_title c) (u_title u)) key) as [E|E];
    cbn; [|now left].
  destruct (bool_decide (key ∈ processedPairs s)) eqn:B; [now left|].
  right. apply bool_decide_eq_false in B.
  repeat split; [exact B|]. cbn. unfold prewarmKey. cbn. now rewrite E.
Qed.

(** One event: at most one request, for a pair not yet in the set, and the
    set grows by exactly that pair. *)
Lemma step_dedup (s : State) (e : Event) :
  (processedPairs (fst (step s e)) = processedPairs s
   /\ prewarmKeys (snd (step s e)) = [])
  \/ (exists key, (key ∉ processedPairs s)
      /\ processedPairs (fst (step s e)) = {[ key ]} ∪ processedPairs s
      /\ prewarmKeys (snd (step s e)) = [key]).
Proof.
  destruct e as [c u|c u|c u|ty paused|id|b|b]; cbn [step].
  - left. apply handleSongChange_processed.
  - left. repeat case_match; cbn;
      rewrite ?schedulePrefetch_processed; auto using handleSongChange_processed.
  - left. repeat case_match; cbn; rewrite ?schedulePrefetch_processed; auto.
  - left. destruct (String.eqb ty "TTS_ENDED"); [|auto].
    unfold onTtsEnded. cbn. rewrite iter_schedule_processed.
    rewrite prewarmKeys_app, prewarmKeys_repeat_resume.
    split; [reflexivity|]. now repeat case_match.
  - unfold onTimer. destruct (timers s !! id) as [t|]; [|now left].
    destruct (t_cb t) as [key|]; [|now left].
    destruct (performPrefetch_cases (clearTimeout s id) key) as [-> | (N & P & K)].
    + now left.
    + right. exists key. auto.
  - now left.
  - now left.
Qed.

Lemma run_dedup (es : list Event) (s : State) :
  NoDup (prewarmKeys (snd (run s es)))
  /\ Forall (fun P => P ∉ processedPairs s) (prewarmKeys (snd (run s es)))
  /\ processedPairs (fst (run s es))
     = list_to_set (prewarmKeys (snd (run s es))) ∪ processedPairs s.
Proof.
  revert s. induction es as [|e es IH]; intros s.
  { cbn. repeat split; [constructor|constructor|set_solver]. }
  cbn [run].
  destruct (step s e) as [s1 o1] eqn:E1.
  specialize (IH s1). destruct (run s1 es) as [s2 o2] eqn:E2.
  cbn [fst snd] in *. destruct IH as (ND & FA & PP).
  rewrite prewarmKeys_app.
  pose proof (step_dedup s e) as D. rewrite E1 in D. cbn [fst snd] in D.
  destruct D as [(P1 & K1) | (key & N & P1 & K1)]; rewrite K1; cbn.
  - rewrite P1 in *. auto.
  - rewrite P1 in *. rewrite Forall_forall in FA.
    repeat split.
    + constructor; [|exact ND]. intros Hin. apply (FA _ Hin). set_solver.
    + constructor; [exact N|]. apply Forall_forall. intros x Hx.
      specialize (FA x Hx). set_solver.
    + rewrite PP. set_solver.
Qed.

End Dedup.

(** C4. In any session, whatever the events (scheduling, timers, messages),
    no pair key is sent a second PREWARM request, the processed-pairs set only
    grows, and from one state to the next the pairs added to it are exactly the
    pairs for which a request was sent. *)
Theorem prefetch_pair_dedup (es1 es2 : list Content.Event) :
  let before := fst (Content.run Content.initial es1) in
  let after := Content.run before es2 in
  NoDup (Content.prewarmKeys (snd (Content.run Content.initial (es1 ++ es2))))
  /\ Content.processedPairs before ⊆ Content.processedPairs (fst after)
  /\ (forall P : string,
        P ∈ Content.prewarmKeys (snd after)
        <-> (P ∈ Content.processedPairs (fst after))
            /\ (P ∉ Content.processedPairs before)).
Proof.
  intros before after.
  split; [apply run_dedup|].
  destruct (run_dedup es2 before) as (ND & FA & PP).
  fold after in ND, FA, PP.
  rewrite Forall_forall in FA.
  split; [rewrite PP; set_solver|].
  intros P. rewrite PP. split.
  - intros Hin. split; [set_solver|now apply FA].
  - set_solver.
Qed.

(** ** The prefetch timer *)

Section Timers.
Import Content ContentSpec.

Lemma TimerInv_initial : TimerInv initial.
Proof.
  repeat split; cbn; discriminate.
Qed.

Lemma cleared_no_prefetch (s : State) :
  TimerInv s ->
  forall id t key, timers (cleared s) !! id = Some t -> t_cb t <> PrefetchCb key.
Proof.
  intros (A & B & C) id t key Hl Hk. unfold cleared in Hl.
  destruct (prefetchTimer s) as [id0|] eqn:E.
  - destruct (Nat.eqb_spec id0 0) as [Z|NZ]; [now apply (B id0)|].
    cbn in Hl. apply lookup_delete_Some in Hl as [Hne Hl].
    specialize (A id t key Hl Hk). congruence.
  - specialize (A id t key Hl Hk). congruence.
Qed.

Lemma cleared_fields (s : State) :
  currentSong (cleared s) = currentSong s
  /\ upcomingSong (cleared s) = upcomingSong s
  /\ prefetchTimer (cleared s) = prefetchTimer s
  /\ nextTimerId (cleared s) = nextTimerId s.
Proof. unfold cleared. repeat case_match; auto. Qed.

Lemma schedulePrefetch_unfold (s : State) :
  schedulePrefetch s
  = match currentSong s, upcomingSong s with
    | Some c, Some u =>
        set_prefetchTimer
          (fst (setTimeout (cleared s)
                  (PrefetchCb (pairKey (c_title c) (u_title u))) 15000))
          (nextTimerId s)
    | _, _ => cleared s
    end.
Proof.
  unfold schedulePrefetch. fold (cleared s).
  destruct (cleared_fields s) as (-> & -> & _ & E).
  destruct (currentSong s), (upcomingSong s); try reflexivity.
  cbn. now rewrite E.
Qed.

(** After scheduling, the only pending deferred check is the new one: for
    the live pair, at 15000 ms, held in [prefetchTimer]. *)
Lemma schedulePrefetch_only (s : State) (id : nat) (t : Timer) (key : string) :
  TimerInv s ->
  timers (schedulePrefetch s) !! id = Some t ->
  t_cb t = PrefetchCb key ->
  livePair s = Some key /\ t_delay t = 15000
  /\ prefetchTimer (schedulePrefetch s) = Some id.
Proof.
  intros I Hl Hk. rewrite schedulePrefetch_unfold in *. unfold livePair.
  pose proof (cleared_no_prefetch s I) as NP.
  destruct (cleared_fields s) as (_ & _ & _ & En).
  destruct (currentSong s) as [c|]; [destruct (upcomingSong s) as [u|]|].
  - cbn in Hl |- *. apply lookup_insert_Some in Hl as [[<- <-]|[_ Hl]].
    + cbn in Hk. injection Hk as <-. rewrite En. auto.
    + destruct (NP _ _ key Hl Hk).
  - destruct (NP _ _ key Hl Hk).
  - destruct (NP _ _ key Hl Hk).
Qed.

Lemma schedulePrefetch_pending (s : State) (P : string) :
  livePair s = Some P ->
  pendingPrefetch (schedulePrefetch s) = Some (P, 15000).
Proof.
  unfold livePair. rewrite schedulePrefetch_unfold.
  destruct (cleared_fields s) as (_ & _ & _ & En).
  destruct (currentSong s) as [c|]; [|discriminate].
  destruct (upcomingSong s) as [u|]; [|discriminate].
  intros [= <-]. unfold pendingPrefetch. cbn.
  rewrite En, lookup_insert_eq. reflexivity.
Qed.

Lemma schedulePrefetch_inv (s : State) : TimerInv s -> TimerInv (schedulePrefetch s).
Proof.
  intros I. split; [|split].
  - intros id t key Hl Hk. now apply (schedulePrefetch_only s id t key I).
  - destruct I as (_ & B & C).
    rewrite schedulePrefetch_unfold.
    destruct (cleared_fields s) as (_ & _ & Ep & _).
    destruct (currentSong s); [destruct (upcomingSong s)|]; cbn;
      try (rewrite Ep; exact B).
    intros id [= <-]. exact C.
  - destruct I as (_ & _ & C).
    rewrite schedulePrefetch_unfold.
    destruct (cleared_fields s) as (_ & _ & _ & En).
    destruct (currentSong s); [destruct (upcomingSong s)|]; cbn;
      rewrite ?En; auto.
Qed.

End Timers.

Section TimerInvariant.
Import Content ContentSpec.

Lemma TimerInv_sub (s s' : State) :
  (forall id t, timers s' !! id = Some t -> timers s !! id = Some t) ->
  prefetchTimer s' = prefetchTimer s ->
  nextTimerId s' = nextTimerId s ->
  TimerInv s -> TimerInv s'.
Proof.
  intros Ht Hp Hn (A & B & C). unfold TimerInv. rewrite Hp, Hn.
  repeat split; auto. intros id t key Hl. apply A. now apply Ht.
Qed.

Lemma triggerAnnounce_inv (s : State) key cur :
  TimerInv s -> TimerInv (fst (triggerAnnounce s key cur)).
Proof.
  intros (A & B & C). unfold triggerAnnounce, setTimeout. cbn.
  repeat split; cbn; auto.
  intros id t k Hl Hk. apply lookup_insert_Some in Hl as [[_ <-]|[_ Hl]].
  - discriminate.
  - now apply (A id t k).
Qed.

Lemma handleSongChange_unfold (s : State) c u :
  handleSongChange s c u
  = if isEnabled s
    then match currentSong s, c with
         | Some prev, Some cur =>
             triggerAnnounce (set_songs s c u)
               (pairKey (c_title prev) (c_title cur)) cur
         | _, _ => (schedulePrefetch (set_songs s c u), [PublishResume])
         end
    else (s, [PublishResume]).
Proof.
  unfold handleSongChange. destruct (isEnabled s); [|reflexivity].
  destruct (currentSong s), c; reflexivity.
Qed.

Lemma handleSongChange_inv (s : State) c u :
  TimerInv s -> TimerInv (fst (handleSongChange s c u)).
Proof.
  intros I. rewrite handleSongChange_unfold.
  destruct (isEnabled s); [|exact I].
  assert (I1 : TimerInv (set_songs s c u)) by (revert I; now apply TimerInv_sub).
  destruct (currentSong s) as [p|]; [destruct c as [c|]|].
  - now apply triggerAnnounce_inv.
  - now apply schedulePrefetch_inv.
  - now apply schedulePrefetch_inv.
Qed.

Lemma iter_schedule_inv (n : nat) (s : State) :
  TimerInv s -> TimerInv (Nat.iter n schedulePrefetch s).
Proof. intros I. induction n; cbn; auto using schedulePrefetch_inv. Qed.

Lemma performPrefetch_timers (s : State) (key : string) :
  timers (fst (performPrefetch s key)) = timers s
  /\ prefetchTimer (fst (performPrefetch s key)) = prefetchTimer s
  /\ nextTimerId (fst (performPrefetch s key)) = nextTimerId s.
Proof. unfold performPrefetch. repeat case_match; cbn; auto. Qed.

Lemma onTimer_timers (s : State) (id : nat) :
  (forall i t, timers (fst (onTimer s id)) !! i = Some t -> timers s !! i = Some t)
  /\ prefetchTimer (fst (onTimer s id)) = prefetchTimer s
  /\ nextTimerId (fst (onTimer s id)) = nextTimerId s.
Proof.
  unfold onTimer. destruct (timers s !! id) as [t0|] eqn:E; [|auto].
  destruct (t_cb t0) as [key|].
  - destruct (performPrefetch_timers (clearTimeout s id) key) as (-> & -> & ->).
    cbn. repeat split. intros i t Hl. now apply lookup_delete_Some in Hl.
  - cbn. repeat split. intros i t Hl. now apply lookup_delete_Some in Hl.
Qed.

Lemma step_inv (s : State) (e : Event) : TimerInv s -> TimerInv (fst (step s e)).
Proof.
  intros I. destruct e as [c u|c u|c u|ty paused|id|b|b]; cbn [step].
  - now apply handleSongChange_inv.
  - repeat case_match; cbn; auto using handleSongChange_inv.
    apply schedulePrefetch_inv. revert I. now apply TimerInv_sub.
  - assert (I1 : TimerInv (set_songs s c u)) by (revert I; now apply TimerInv_sub).
    repeat case_match; cbn; auto using schedulePrefetch_inv.
  - destruct (String.eqb ty "TTS_ENDED"); [|exact I].
    cbn. apply iter_schedule_inv. revert I. now apply TimerInv_sub.
  - destruct (onTimer_timers s id) as (Ht & Hp & Hn).
    revert I. now apply TimerInv_sub.
  - revert I. now apply TimerInv_sub.
  - revert I. now apply TimerInv_sub.
Qed.

Lemma run_inv (es : list Event) (s : State) :
  TimerInv s -> TimerInv (fst (run s es)).
Proof.
  revert s. induction es as [|e es IH]; intros s I; [exact I|].
  cbn [run]. pose proof (step_inv s e I) as I1.
  destruct (step s e) as [s1 o1]. specialize (IH s1 I1).
  destruct (run s1 es) as [s2 o2]. exact IH.
Qed.

(** Timers firing send requests only for the keys of pending checks. *)
Lemma onTimer_only (P : string) (s : State) (id : nat) :
  OnlyFor P s ->
  OnlyFor P (fst (onTimer s id))
  /\ Forall (fun k => k = P) (prewarmKeys (snd (onTimer s id))).
Proof.
  intros O. split.
  - intros i t key Hl. apply (O i t key).
    now apply (onTimer_timers s id).
  - unfold onTimer. destruct (timers s !! id) as [t0|] eqn:E; [|constructor].
    destruct (t_cb t0) as [key|] eqn:K; [|constructor].
    destruct (performPrefetch_cases (clearTimeout s id) key) as [-> | (_ & _ & ->)].
    + constructor.
    + constructor; [|constructor]. now apply (O id t0 key).
Qed.

Lemma run_timers_only (P : string) (ids : list nat) (s : State) :
  OnlyFor P s ->
  Forall (fun k => k = P) (prewarmKeys (snd (run s (map OnTimer ids)))).
Proof.
  revert s. induction ids as [|id ids IH]; intros s O; [constructor|].
  cbn [map run step].
  destruct (onTimer_only P s id O) as (O1 & F1).
  destruct (onTimer s id) as [s1 o1]. cbn [fst snd] in *.
  specialize (IH s1 O1). destruct (run s1 _) as [s2 o2]. cbn [fst snd] in *.
  rewrite prewarmKeys_app. apply Forall_app. auto.
Qed.

(** A deferred check whose key is no longer the live pair does nothing but
    go away. *)
Lemma onTimer_stale (s : State) (id : nat) (t : Timer) (key : string) :
  timers s !! id = Some t ->
  t_cb t = PrefetchCb key ->
  livePair s <> Some key ->
  onTimer s id = (clearTimeout s id, []).
Proof.
  intros Hl Hk Hp. unfold onTimer. rewrite Hl, Hk.
  unfold performPrefetch, livePair in *. cbn.
  destruct (currentSong s) as [c|]; [|reflexivity].
  destruct (upcomingSong s) as [u|]; [|reflexivity].
  destruct (String.eqb_spec (pairKey (c_title c) (u_title u)) key) as [E|E];
    [|reflexivity].
  congruence.
Qed.

End TimerInvariant.

(** C5. In any state [s] a session reaches, scheduling leaves one pending
    deferred check at most: any check pending afterwards is for the live pair,
    at 15000 ms, and is the one held in [prefetchTimer], so a check scheduled
    earlier for another pair is gone; when the live pair is P2, timers firing
    afterwards send requests for P2 only, none for an earlier pair P1.  When a
    check fires for a key that is no longer the live pair, nothing is sent and
    the state changes only by the timer going away. *)
Theorem prefetch_timer_supersession (es : list Content.Event) (id : nat)
    (t : Content.Timer) (key : string) :
  let s := fst (Content.run Content.initial es) in
  let s' := Content.schedulePrefetch s in
  (Content.timers s' !! id = Some t -> Content.t_cb t = Content.PrefetchCb key ->
     ContentSpec.livePair s = Some key /\ Content.t_delay t = 15000
     /\ Content.prefetchTimer s' = Some id)
  /\ (forall P2, ContentSpec.livePair s = Some P2 ->
        ContentSpec.pendingPrefetch s' = Some (P2, 15000)
        /\ forall ids P1, P1 <> P2 ->
             P1 ∉ Content.prewarmKeys
                    (snd (Content.run s' (map Content.OnTimer ids))))
  /\ (Content.timers s !! id = Some t -> Content.t_cb t = Content.PrefetchCb key ->
        ContentSpec.livePair s <> Some key ->
        Content.step s (Content.OnTimer id) = (Content.clearTimeout s id, [])).
Proof.
  intros s s'.
  assert (I : ContentSpec.TimerInv s).
  { apply run_inv, TimerInv_initial. }
  split; [|split].
  - now apply schedulePrefetch_only.
  - intros P2 HP. split; [now apply schedulePrefetch_pending|].
    intros ids P1 Hne Hin.
    assert (O : ContentSpec.OnlyFor P2 s').
    { intros i t0 k Hl Hk.
      destruct (schedulePrefetch_only s i t0 k I Hl Hk) as (E & _). congruence. }
    pose proof (run_timers_only P2 ids s' O) as F.
    rewrite Forall_forall in F. now apply F in Hin.
  - apply onTimer_stale.
Qed.

Lemma prefetch_timer_supersession_witness :
  ContentSpec.pendingPrefetch (Content.schedulePrefetch ExamplesContent.playingA)
  = Some ("A::B", 15000)
  /\ Content.timers ExamplesTimers.stale !! 1%nat = Some ExamplesTimers.checkAB
  /\ ContentSpec.livePair ExamplesTimers.stale = Some "B::C"
  /\ Content.step ExamplesTimers.stale (Content.OnTimer 1)
     = (Content.clearTimeout ExamplesTimers.stale 1, []).
Proof.
  pose proof (prefetch_timer_supersession
                [Content.OnInit true;
                 Content.OnReturnData (Some ExamplesContent.songA)
                                      (Some ExamplesContent.nextB)]
                2%nat ExamplesTimers.checkAB "A::B") as H.
  cbv zeta in H. destruct H as (_ & H2 & _).
  pose proof (prefetch_timer_supersession ExamplesTimers.staleEvents
                1%nat ExamplesTimers.checkAB "A::B") as H.
  cbv zeta in H. destruct H as (_ & _ & H3).
  split; [apply (H2 "A::B"); reflexivity|].
  split; [reflexivity|]. split; [reflexivity|].
  apply H3; [reflexivity|reflexivity|discriminate].
Defined.

(** ** Trigger handling and the announce flow *)

Section Announce.
Import Content ContentSpec.

Lemma schedulePrefetch_songs (s : State) :
  currentSong (schedulePrefetch s) = currentSong s
  /\ upcomingSong (schedulePrefetch s) = upcomingSong s
  /\ waiters (schedulePrefetch s) = waiters s.
Proof.
  unfold schedulePrefetch, clearTimeout, setTimeout, set_prefetchTimer.
  repeat case_match; cbn in *; repeat split; congruence.
Qed.


Lemma publishesResume_app (o1 o2 : list Effect) :
  publishesResume (o1 ++ o2) = publishesResume o1 || publishesResume o2.
Proof. unfold publishesResume. apply existsb_app. Qed.

(** Timers firing publish no Resume and release no waiting announce. *)
Lemma onTimer_quiet (s : State) (id : nat) :
  publishesResume (snd (onTimer s id)) = false
  /\ waiters (fst (onTimer s id)) = waiters s.
Proof.
  unfold onTimer, performPrefetch.
  repeat case_match; cbn; auto.
Qed.

Lemma run_timers_quiet (ids : list nat) (s : State) :
  publishesResume (snd (run s (map OnTimer ids))) = false
  /\ waiters (fst (run s (map OnTimer ids))) = waiters s.
Proof.
  revert s. induction ids as [|id ids IH]; intros s; [auto|].
  cbn [map run step].
  destruct (onTimer_quiet s id) as (Q & W).
  destruct (onTimer s id) as [s1 o1]. cbn [fst snd] in *.
  destruct (IH s1) as (Q2 & W2). destruct (run s1 _) as [s2 o2].
  cbn [fst snd] in *. rewrite publishesResume_app, Q, Q2, W2, W. auto.
Qed.

Lemma deliver_quiet (h : Host) (t : Injector.Trap) (out : list Effect) :
  publishesResume out = false -> deliver h t out = t.
Proof.
  unfold deliver. revert t. induction out as [|e out IH]; intros t; [reflexivity|].
  destruct e; cbn; try discriminate; apply IH.
Qed.

End Announce.

Section TriggerHandling.
Import Content ContentSpec.

Lemma triggerAnnounce_fields (s : State) key cur :
  let a := triggerAnnounce s key cur in
  currentSong (fst a) = currentSong s
  /\ upcomingSong (fst a) = upcomingSong s
  /\ prefetchTimer (fst a) = prefetchTimer s
  /\ waiters (fst a) = S (waiters s)
  /\ timers (fst a) !! nextTimerId s = Some {| t_delay := 5000; t_cb := SafetyCb |}
  /\ snd a = [SONG_ABOUT_TO_END
                {| currentSongTitle := splitAt key 0;
                   currentSongArtist := "Unknown";
                   upcomingSongTitle := splitAt key 1;
                   upcomingSongArtist := c_artist cur |}].
Proof.
  unfold triggerAnnounce, setTimeout. cbn.
  repeat split. apply lookup_insert_eq.
Qed.

Lemma onTtsEnded_resumes (s : State) (paused : option bool) :
  snd (onTtsEnded s paused)
  = (match paused with Some true => [PublishResume] | _ => [] end
     ++ repeat PublishResume (waiters s))%list.
Proof. reflexivity. Qed.


End TriggerHandling.




Section AnnounceWaiting.
Import Content ContentSpec AnnounceSpec.

Lemma schedulePrefetch_isEnabled (s : State) :
  isEnabled (schedulePrefetch s) = isEnabled s.
Proof.
  unfold schedulePrefetch, clearTimeout, setTimeout, set_prefetchTimer.
  repeat case_match; reflexivity.
Qed.

Lemma schedulePrefetch_announcing (s : State) :
  Announcing s -> Announcing (schedulePrefetch s).
Proof.
  intros (E & C). unfold Announcing.
  rewrite schedulePrefetch_isEnabled.
  destruct (schedulePrefetch_songs s) as (-> & _). auto.
Qed.

Lemma onTimer_announcing (s : State) (id : nat) :
  Announcing s -> Announcing (fst (onTimer s id)).
Proof.
  intros (E & C). unfold Announcing, onTimer, performPrefetch.
  repeat case_match; cbn; auto.
Qed.

(** Between an announce and its completion signal, an event that keeps the
    extension on and brings a current track publishes no Resume and releases
    no waiting announce. *)
Lemma step_keepsWaiting (s : State) (e : Event) :
  Announcing s -> keepsWaiting e = true ->
  Announcing (fst (step s e))
  /\ publishesResume (snd (step s e)) = false
  /\ (waiters s <= waiters (fst (step s e)))%nat.
Proof.
  intros A K. pose proof A as (En & Cs).
  assert (HS : forall c0 u, Announcing (fst (handleSongChange s (Some c0) u))
                            /\ publishesResume (snd (handleSongChange s (Some c0) u)) = false
                            /\ (waiters s <= waiters (fst (handleSongChange s (Some c0) u)))%nat).
  { intros c0 u. rewrite handleSongChange_unfold, En.
    destruct (currentSong s) as [prev|]; [|contradiction].
    pose proof (triggerAnnounce_fields (set_songs s (Some c0) u)
                  (pairKey (c_title prev) (c_title c0)) c0) as F.
    cbv zeta in F. destruct F as (Fc & _ & _ & Fw & _ & Fo).
    rewrite Fo, Fw. unfold Announcing. rewrite Fc. cbn.
    split; [split; [exact En|discriminate]|]. split; [reflexivity|lia]. }
  destruct e as [c u|c u|c u|ty paused|id|b|b]; cbn [step]; cbn in K.
  - destruct c as [c0|]; [apply HS|discriminate].
  - destruct c as [c0|]; [|discriminate].
    destruct (negb (bool_decide _)); [apply HS|].
    destruct (negb (bool_decide _)); cbn [fst snd]; [|auto].
    destruct (schedulePrefetch_songs (set_upcoming s u)) as (_ & _ & ->).
    split; [|auto]. apply schedulePrefetch_announcing. exact A.
  - destruct c as [c0|]; [|discriminate].
    assert (A1 : Announcing (set_songs s (Some c0) u)).
    { split; [exact En|discriminate]. }
    destruct u as [u0|]; cbn [fst snd]; [|auto].
    destruct (schedulePrefetch_songs (set_songs s (Some c0) (Some u0)))
      as (_ & _ & ->).
    split; [|auto]. now apply schedulePrefetch_announcing.
  - apply negb_true_iff in K. rewrite K. auto.
  - destruct (onTimer_quiet s id) as (Q & W). rewrite W.
    split; [|auto]. now apply onTimer_announcing.
  - subst b. cbn. split; [|auto]. split; [reflexivity|exact Cs].
  - subst b. cbn. split; [|auto]. split; [reflexivity|exact Cs].
Qed.

Lemma run_keepsWaiting (es : list Event) (s : State) :
  Announcing s -> forallb keepsWaiting es = true ->
  publishesResume (snd (run s es)) = false
  /\ (waiters s <= waiters (fst (run s es)))%nat.
Proof.
  revert s. induction es as [|e es IH]; intros s A F; [auto|].
  cbn [forallb] in F. apply andb_true_iff in F as [Fe Fs].
  destruct (step_keepsWaiting s e A Fe) as (A1 & Q1 & W1).
  cbn [run]. destruct (step s e) as [s1 o1]. cbn [fst snd] in *.
  destruct (IH s1 A1 Fs) as (Q2 & W2).
  destruct (run s1 es) as [s2 o2]. cbn [fst snd] in *.
  rewrite publishesResume_app, Q1, Q2. split; [reflexivity|lia].
Qed.

(** Resume is published on the completion signal, or by the song-change
    handler when it has nothing to announce, and by nothing else. *)
Lemma step_resume_only (s : State) (e : Event) :
  publishesResume (snd (step s e)) = true ->
  (exists p, e = OnMessage "TTS_ENDED" p) \/ gatedChange s e.
Proof.
  assert (HS : forall c u, publishesResume (snd (handleSongChange s c u)) = true ->
                           isEnabled s = false \/ currentSong s = None \/ c = None).
  { intros c u. rewrite handleSongChange_unfold.
    destruct (isEnabled s); [|auto].
    destruct (currentSong s) as [prev|]; [|auto].
    destruct c as [c0|]; [|auto]. cbn. discriminate. }
  destruct e as [c u|c u|c u|ty paused|id|b|b]; cbn [step]; intros H.
  - right. exists c, u. split; [now left|now apply (HS c u)].
  - destruct (negb (bool_decide _)).
    + right. exists c, u. split; [now right|now apply (HS c u)].
    + destruct (negb (bool_decide _)); discriminate.
  - repeat case_match; discriminate.
  - destruct (String.eqb_spec ty "TTS_ENDED") as [->|]; [|discriminate].
    left. eauto.
  - destruct (onTimer_quiet s id) as (Q & _). congruence.
  - discriminate.
  - discriminate.
Qed.

End AnnounceWaiting.

(** C8, as the code has it.  The only timeout the announce flow sets is a
    5000 ms one with an empty callback, and requesting the announce publishes
    no Resume.  In every execution that follows the request in which no
    completion signal arrives, the extension is not switched off and every
    Trigger, Update or DataReturn brings a current track, no Resume is
    published, every announce keeps waiting and a locked trap stays locked.
    Resume is published by no event other than the completion signal and a
    Trigger or Update that the song-change handler answers at once (extension
    off, no stored track or no arriving track).  On the completion signal the
    global listener publishes Resume exactly when the video element is found
    paused, before the waiting announce flows publish theirs. *)
Theorem stuck_lock_without_completion (s : Content.State) (h : Host)
    (t : Injector.Trap) (key : string) (cur : Content.CurrentSong)
    (es : list Content.Event) (paused : option bool) (e : Content.Event) :
  let a := Content.triggerAnnounce s key cur in
  let r := Content.run (fst a) es in
  Content.timers (fst a) !! Content.nextTimerId s
  = Some {| Content.t_delay := 5000; Content.t_cb := Content.SafetyCb |}
  /\ Content.publishesResume (snd a) = false
  /\ (AnnounceSpec.Announcing s ->
      forallb AnnounceSpec.keepsWaiting es = true ->
        Content.publishesResume (snd r) = false
        /\ (S (Content.waiters s) <= Content.waiters (fst r))%nat
        /\ (Injector.isLocked t = true ->
              Injector.isLocked (ContentSpec.deliver h t (snd r)) = true))
  /\ (Content.publishesResume (snd (Content.step s e)) = true ->
        (exists p, e = Content.OnMessage "TTS_ENDED" p)
        \/ AnnounceSpec.gatedChange s e)
  /\ snd (Content.step s (Content.OnMessage "TTS_ENDED" paused))
     = (match paused with Some true => [Content.PublishResume] | _ => [] end
        ++ repeat Content.PublishResume (Content.waiters s))%list.
Proof.
  intros a r.
  pose proof (triggerAnnounce_fields s key cur) as F. cbv zeta in F.
  fold a in F. destruct F as (Fc & _ & _ & Fw & Ft & Fo).
  split; [exact Ft|]. split; [now rewrite Fo|]. split; [|split].
  - intros (En & Cs) K.
    assert (A : AnnounceSpec.Announcing (fst a)).
    { split; [exact En|now rewrite Fc]. }
    destruct (run_keepsWaiting es (fst a) A K) as (Q & W). fold r in Q, W.
    split; [exact Q|]. split; [rewrite Fw in W; exact W|].
    intros L. now rewrite deliver_quiet.
  - apply step_resume_only.
  - reflexivity.
Qed.

Lemma stuck_lock_without_completion_witness :
  ExamplesStuck.announced
  = fst (Content.triggerAnnounce ExamplesSession.arrivedB "A::B" ExamplesContent.songB)
  /\ Content.publishesResume
       (snd (Content.run ExamplesStuck.announced ExamplesStuck.waiting)) = false
  /\ (1 <= Content.waiters
             (fst (Content.run ExamplesStuck.announced ExamplesStuck.waiting)))%nat
  /\ Injector.isLocked
       (ContentSpec.deliver Examples.bareHost Examples.lockedTrap
          (snd (Content.run ExamplesStuck.announced ExamplesStuck.waiting))) = true
  /\ ((exists p, Content.OnTrigger None None = Content.OnMessage "TTS_ENDED" p)
      \/ AnnounceSpec.gatedChange ExamplesSession.arrivedB
           (Content.OnTrigger None None)).
Proof.
  pose proof (stuck_lock_without_completion ExamplesSession.arrivedB
                Examples.bareHost Examples.lockedTrap "A::B" ExamplesContent.songB
                ExamplesStuck.waiting None (Content.OnTrigger None None)) as H.
  cbv zeta in H. destruct H as (_ & _ & W & G & _).
  assert (A : AnnounceSpec.Announcing ExamplesSession.arrivedB).
  { split; [reflexivity|discriminate]. }
  destruct (W A eq_refl) as (Q & N & L).
  split; [reflexivity|]. split; [exact Q|]. split; [exact N|].
  split; [apply L; reflexivity|]. apply G. reflexivity.
Defined.

(** C8, as stated, fails: with the announce for "A" to "B" waiting and no
    completion signal, the extension is switched off and "C" arrives; the
    coordinator publishes Resume, which unlocks the trap, while the announce
    is still waiting. *)
Lemma lock_released_without_completion :
  Content.waiters ExamplesStuck.announced = 1%nat
  /\ forallb (fun e => match e with
                       | Content.OnMessage _ _ => false
                       | _ => true
                       end) ExamplesStuck.switchedOff = true
  /\ snd (Content.run ExamplesStuck.announced ExamplesStuck.switchedOff)
     = [Content.PublishResume]
  /\ Injector.isLocked
       (ContentSpec.deliver Examples.bareHost Examples.lockedTrap
          (snd (Content.run ExamplesStuck.announced ExamplesStuck.switchedOff)))
     = false
  /\ Content.waiters
       (fst (Content.run ExamplesStuck.announced ExamplesStuck.switchedOff))
     = 1%nat.
Proof. repeat split. Qed.

Lemma prefetch_pair_dedup_witness :
  Content.prewarmKeys (snd (Content.run Content.initial ExamplesSession.twice))
  = ["A::B"]
  /\ NoDup (Content.prewarmKeys
              (snd (Content.run Content.initial ExamplesSession.twice)))
  /\ "A::B" ∈ Content.processedPairs
                (fst (Content.run Content.initial ExamplesSession.twice)).
Proof.
  pose proof (prefetch_pair_dedup [] ExamplesSession.twice) as H.
  cbv zeta in H. destruct H as (N & _ & E).
  split; [reflexivity|]. split; [exact N|].
  apply (proj1 (E "A::B")). change ("A::B" ∈ ["A::B"]). apply list_elem_of_here.
Defined.

(** * Further properties of the injectors *)

(** ** The two upcoming-track reads compared *)

Section ReadsCompared.
Import Js.

Lemma call_falsy (gs : JsVal) : truthy gs = false -> call gs = Throw.
Proof. destruct gs as [| |b|z|s|l|fs|[v|]]; simpl; congruence. Qed.

Lemma get_falsy (v : JsVal) (p : string) :
  truthy v = false -> optGet v p = Ok JUndefined.
Proof. destruct v; simpl; try discriminate; reflexivity. Qed.

Lemma optGet_truthy (v : JsVal) (p : string) :
  truthy v = true -> optGet v p = get v p.
Proof. intros T. unfold optGet. now rewrite (truthy_not_nullish v T). Qed.

End ReadsCompared.

(** X1. The guarded read of the snapshot injector is the earlier read with
    every exception turned into absent: on every page the two agree whenever
    the earlier one returns, and the guarded one is absent whenever the
    earlier one throws. *)
Theorem guarded_read_is_unguarded_read_caught (h : Host) :
  Injector.getNextSongData h = Js.tryCatchNull (InjectorV1.getNextSongData h).
Proof.
  unfold Injector.getNextSongData, Injector.getNextSongData_body,
    Injector.queueStateOf, InjectorV1.getNextSongData, InjectorV1.queueStateOf,
    Js.tryCatchNull.
  destruct (Js.optGet (queueEl h) "queue") as [q|]; cbn; [|reflexivity].
  destruct (Js.optGet q "store") as [s1|]; cbn; [|reflexivity].
  destruct (Js.orElse s1 _) as [store|]; cbn; [|reflexivity].
  destruct (Js.truthy store) eqn:Ts; cbn.
  - rewrite (optGet_truthy store "getState" Ts).
    destruct (Js.get store "getState") as [gs|]; cbn; [|reflexivity].
    destruct (Js.truthy gs) eqn:Tg.
    + destruct (Js.call gs) as [state|]; cbn; [|reflexivity].
      destruct (Js.optGet state "queue") as [q1|]; cbn; [|reflexivity].
      destruct (Js.orElse q1 _) as [qs|]; cbn; [|reflexivity].
      destruct (Js.truthy qs); reflexivity.
    + now rewrite (call_falsy gs Tg).
  - now rewrite (get_falsy store "getState" Ts).
Qed.

(** ** What the upcoming-track read can return *)

Section UpcomingShape.
Import Js ObserverSpec.

Lemma orElse_default (v : JsVal) (d : string) (r : JsVal) :
  orElse v (Ok (JStr d)) = Ok r -> d <> "" -> truthy r = true.
Proof.
  unfold orElse. destruct (truthy v) eqn:T; intros [= <-] Hd; [exact T|].
  simpl. now destruct (String.eqb_spec d "").
Qed.

Lemma nextOf_fields (qs : JsVal) (u : UpcomingSong) :
  Queue.nextOf qs = Ok (Some u) ->
  truthy (up_title u) = true /\ truthy (up_artist u) = true.
Proof.
  unfold Queue.nextOf. intros H.
  repeat match type of H with
         | (match ?e with Ok _ => _ | Throw => _ end) = _ =>
             destruct e eqn:?; cbn in H; [|discriminate]
         | (?e ≫= _) = _ => destruct e eqn:?; cbn in H; [|discriminate]
         | (if ?b then _ else _) = _ => destruct b eqn:?; cbn in H; try discriminate
         end.
  injection H as <-. cbn. split; eapply orElse_default; eauto; discriminate.
Qed.

(** X6. Whenever the scan for the selected entry ends without exception, its
    result is -1 or the position, inside the list, of an entry flagged
    selected before which no entry is flagged selected. *)
Lemma findSelected_result (q : list JsVal) (i r : Z) :
  Queue.findSelected q i = Ok r ->
  r = -1
  \/ exists (k : nat) (e : JsVal),
       r = i + Z.of_nat k /\ q !! k = Some e /\ isSelected e = true
       /\ forall (j : nat) (e' : JsVal),
            (j < k)%nat -> q !! j = Some e' -> isSelected e' = false.
Proof.
  revert i. induction q as [|e q IH]; intros i H; [left; now injection H|].
  cbn [Queue.findSelected] in H.
  destruct (Queue.unwrap e) as [d|] eqn:Hd; cbn in H; [|discriminate].
  assert (Hsel : isSelected e
                 = if truthy d
                   then match get d "selected" with Ok s => truthy s | Throw => false end
                   else false).
  { unfold isSelected, rendererOf. rewrite Hd. now destruct (truthy d). }
  assert (Hrec : Queue.findSelected q (i + 1) = Ok r -> isSelected e = false ->
                 r = -1
                 \/ exists (k : nat) (e0 : JsVal),
                      r = i + Z.of_nat k /\ (e :: q) !! k = Some e0
                      /\ isSelected e0 = true
                      /\ forall (j : nat) (e' : JsVal),
                           (j < k)%nat -> (e :: q) !! j = Some e' ->
                           isSelected e' = false).
  { intros Hq Hn. destruct (IH _ Hq) as [->|(k & e0 & -> & Hk & Hs & Hb)]; [now left|].
    right. exists (S k), e0. repeat split; [lia|exact Hk|exact Hs|].
    intros [|j] e' Hj Hl; cbn in Hl.
    - now injection Hl as <-.
    - apply (Hb j e'); [lia|exact Hl]. }
  destruct (truthy d) eqn:Td.
  - destruct (get d "selected") as [s|]; cbn in H; [|discriminate].
    destruct (truthy s) eqn:Ts.
    + injection H as <-. right. exists 0%nat, e.
      repeat split; [lia|exact Hsel|]. intros j e' Hj. lia.
    + now apply Hrec.
  - now apply Hrec.
Qed.

End UpcomingShape.

(** X2. Whatever the page, a track returned by the upcoming-track read has a
    title and an artist that are never empty, null or undefined: the defaults
    fill every gap.  This holds for both injectors. *)
Theorem upcoming_fields_never_empty (h : Host) (u : UpcomingSong) :
  (Injector.getNextSongData h = Some u ->
     Js.truthy (up_title u) = true /\ Js.truthy (up_artist u) = true)
  /\ (InjectorV1.getNextSongData h = Ok (Some u) ->
        Js.truthy (up_title u) = true /\ Js.truthy (up_artist u) = true).
Proof.
  assert (V1 : InjectorV1.getNextSongData h = Ok (Some u) ->
               Js.truthy (up_title u) = true /\ Js.truthy (up_artist u) = true).
  { unfold InjectorV1.getNextSongData. intros H.
    destruct (InjectorV1.queueStateOf h) as [qs|]; cbn in H; [|discriminate].
    destruct (Js.truthy qs); cbn in H; [|discriminate].
    now apply (nextOf_fields qs). }
  split; [|exact V1].
  unfold Injector.getNextSongData, Injector.getNextSongData_body, Js.tryCatchNull.
  intros H.
  destruct (Injector.queueStateOf h) as [[qs|]|]; cbn in H; try discriminate.
  destruct (Js.truthy qs); cbn in H; [|discriminate].
  destruct (Queue.nextOf qs) as [r|] eqn:E; [|discriminate].
  subst r. now apply (nextOf_fields qs).
Qed.

(** * Further properties of strings and pair keys *)

Section SplitFacts.
Import StrSpec.

Lemma append_nil_r (s : string) : (s ++ "")%string = s.
Proof.
  induction s as [|c s IH]; [reflexivity|].
  change (String c (s ++ "") = String c s)%string. now rewrite IH.
Qed.

Lemma prefix_append (sep b : string) : String.prefix sep (sep ++ b) = true.
Proof.
  induction sep as [|c sep IH]; [now destruct b|].
  change (String.prefix (String c sep) (String c (sep ++ b)) = true).
  cbn. destruct (ascii_dec c c); [exact IH|contradiction].
Qed.

Lemma prefix_head (c0 c : ascii) (s1 s2 : string) :
  c0 <> c -> String.prefix (String c0 s1) (String c s2) = false.
Proof.
  intros N.
  change (String.prefix (String c0 s1) (String c s2))
    with (match ascii_dec c0 c with
          | left _ => String.prefix s1 s2
          | right _ => false
          end).
  destruct (ascii_dec c0 c); [contradiction|reflexivity].
Qed.

(** Skipping the rest of a matched separator. *)
Lemma split_aux_skip (sep x b cur : string) :
  Str.split_aux sep (x ++ b) cur (String.length x) = Str.split_aux sep b cur 0.
Proof.
  induction x as [|c x IH]; [reflexivity|].
  change (Str.split_aux sep (String c (x ++ b)) cur (S (String.length x))
          = Str.split_aux sep b cur 0).
  cbn [Str.split_aux]. exact IH.
Qed.

(** Up to the first match the text goes to the current segment. *)
Lemma split_aux_first (c0 : ascii) (sep' a b cur : string) :
  let sep := String c0 sep' in
  noMatchBefore sep (a ++ sep ++ b) (String.length a) = true ->
  Str.split_aux sep (a ++ sep ++ b) cur 0
  = (cur ++ a)%string :: Str.split_aux sep b "" 0.
Proof.
  intros sep. revert cur. induction a as [|c a IH]; intros cur H.
  - change (Str.split_aux sep (String c0 (sep' ++ b)) cur 0
            = (cur ++ "")%string :: Str.split_aux sep b "" 0).
    cbn [Str.split_aux].
    change (String c0 (sep' ++ b))%string with (sep ++ b)%string.
    rewrite prefix_append, append_nil_r. f_equal.
    change (String.length sep - 1)%nat with (String.length sep' - 0)%nat.
    rewrite Nat.sub_0_r. apply split_aux_skip.
  - change (String c a ++ sep ++ b)%string
      with (String c (a ++ sep ++ b))%string in *.
    cbn [noMatchBefore String.length] in H.
    apply andb_true_iff in H as [Hp Hr]. apply negb_true_iff in Hp.
    cbn [Str.split_aux]. rewrite Hp. rewrite (IH _ Hr). f_equal.
    rewrite append_assoc. reflexivity.
Qed.

(** Without a match the whole text is one segment. *)
Lemma split_aux_free (sep s cur : string) :
  free sep s = true -> Str.split_aux sep s cur 0 = [(cur ++ s)%string].
Proof.
  unfold free. revert cur. induction s as [|c s IH]; intros cur H.
  - cbn. now rewrite append_nil_r.
  - cbn [noMatchBefore String.length] in H.
    apply andb_true_iff in H as [Hp Hr]. apply negb_true_iff in Hp.
    cbn [Str.split_aux]. rewrite Hp, (IH _ Hr), append_assoc. reflexivity.
Qed.

Lemma colonFree_noMatch (a rest : string) :
  colonFree a = true -> noMatchBefore "::" (a ++ rest) (String.length a) = true.
Proof.
  induction a as [|c a IH]; intros H; [reflexivity|].
  change (String c a ++ rest)%string with (String c (a ++ rest))%string.
  cbn [colonFree] in H. apply andb_true_iff in H as [Hc Ha].
  cbn [noMatchBefore String.length]. rewrite (IH Ha), andb_true_r.
  rewrite prefix_head; [reflexivity|].
  intros <-. now rewrite Ascii.eqb_refl in Hc.
Qed.

(** A pair key of a colon-free title and a title without the separator splits
    into exactly the two titles. *)
Lemma split_pairKey (a b : string) :
  colonFree a = true -> free "::" b = true ->
  Str.split (Content.pairKey a b) "::" = [a; b].
Proof.
  intros Ha Hb. unfold Str.split, Content.pairKey.
  rewrite (split_aux_first ":" ":" a b "").
  - now rewrite (split_aux_free "::" b "" Hb).
  - now apply colonFree_noMatch.
Qed.

(** The split of any pair key has a first and a second segment. *)
Lemma split_aux_two (c0 : ascii) (sep' a b cur : string) :
  let sep := String c0 sep' in
  exists x y rest, Str.split_aux sep (a ++ sep ++ b) cur 0 = x :: y :: rest.
Proof.
  intros sep.
  assert (NE : forall s cur k, exists y rest, Str.split_aux sep s cur k = y :: rest).
  { induction s as [|c s IHs]; intros cu k; [cbn; eauto|].
    cbn [Str.split_aux]. destruct k; [|apply IHs].
    destruct (String.prefix sep (String c s)); [eauto|apply IHs]. }
  revert cur. induction a as [|c a IH]; intros cur.
  - change (exists x y rest,
               Str.split_aux sep (String c0 (sep' ++ b)) cur 0 = x :: y :: rest).
    cbn [Str.split_aux].
    change (String c0 (sep' ++ b))%string with (sep ++ b)%string.
    rewrite prefix_append.
    destruct (NE (sep' ++ b)%string ""%string (String.length sep - 1)%nat)
      as (y & rest & ->). eauto.
  - change (String c a ++ sep ++ b)%string
      with (String c (a ++ sep ++ b))%string.
    cbn [Str.split_aux].
    destruct (String.prefix sep (String c (a ++ sep ++ b))).
    + destruct (NE (a ++ sep ++ b)%string ""%string (String.length sep - 1)%nat)
        as (y & rest & ->). eauto.
    + apply IH.
Qed.

End SplitFacts.

(** X3. The announce message always names two titles: whatever the stored
    and the arriving track, the split of their pair key has a first and a
    second segment, so neither title field of the message is undefined. *)
Theorem announce_titles_always_defined (s : Content.State)
    (prev c : Content.CurrentSong) (u : option Content.UpcomingSong) :
  Content.isEnabled s = true ->
  Content.currentSong s = Some prev ->
  exists x y : string,
    snd (Content.step s (Content.OnTrigger (Some c) u))
    = [Content.SONG_ABOUT_TO_END
         {| Content.currentSongTitle := Some x;
            Content.currentSongArtist := "Unknown";
            Content.upcomingSongTitle := Some y;
            Content.upcomingSongArtist := Content.c_artist c |}].
Proof.
  intros En Hp. cbn [Content.step].
  rewrite handleSongChange_unfold, En, Hp.
  destruct (split_aux_two ":" ":" (Content.c_title prev) (Content.c_title c) "")
    as (x & y & rest & E).
  exists x, y. unfold Content.triggerAnnounce, Content.splitAt, Str.split,
    Content.pairKey. cbn [snd Content.setTimeout]. rewrite E. reflexivity.
Qed.

Lemma announce_titles_always_defined_witness :
  exists x y : string,
    snd (Content.step ExamplesContent.playingAB
           (Content.OnTrigger (Some ExamplesContent.songC) None))
    = [Content.SONG_ABOUT_TO_END
         {| Content.currentSongTitle := Some x;
            Content.currentSongArtist := "Unknown";
            Content.upcomingSongTitle := Some y;
            Content.upcomingSongArtist := "Z" |}].
Proof.
  exact (announce_titles_always_defined ExamplesContent.playingAB
           ExamplesContent.songAB ExamplesContent.songC None eq_refl eq_refl).
Defined.

(** X4. When the stored title holds no colon and the arriving title does not
    hold the separator "::", the announce message carries exactly the stored
    title as the previous one and the arriving title as the new one. *)
Theorem announce_titles_round_trip (s : Content.State)
    (prev c : Content.CurrentSong) (u : option Content.UpcomingSong) :
  Content.isEnabled s = true ->
  Content.currentSong s = Some prev ->
  StrSpec.colonFree (Content.c_title prev) = true ->
  StrSpec.free "::" (Content.c_title c) = true ->
  snd (Content.step s (Content.OnTrigger (Some c) u))
  = [Content.SONG_ABOUT_TO_END
       {| Content.currentSongTitle := Some (Content.c_title prev);
          Content.currentSongArtist := "Unknown";
          Content.upcomingSongTitle := Some (Content.c_title c);
          Content.upcomingSongArtist := Content.c_artist c |}].
Proof.
  intros En Hp Ha Hb. cbn [Content.step].
  rewrite handleSongChange_unfold, En, Hp.
  unfold Content.triggerAnnounce, Content.splitAt.
  cbn [snd Content.setTimeout].
  rewrite (split_pairKey _ _ Ha Hb). reflexivity.
Qed.

Lemma announce_titles_round_trip_witness :
  snd (Content.step ExamplesContent.playingA
         (Content.OnTrigger (Some ExamplesContent.songB) (Some ExamplesContent.nextC)))
  = [Content.SONG_ABOUT_TO_END
       {| Content.currentSongTitle := Some "A";
          Content.currentSongArtist := "Unknown";
          Content.upcomingSongTitle := Some "B";
          Content.upcomingSongArtist := "Y" |}].
Proof.
  exact (announce_titles_round_trip ExamplesContent.playingA
           ExamplesContent.songA ExamplesContent.songB
           (Some ExamplesContent.nextC) eq_refl eq_refl eq_refl eq_refl).
Defined.

(** X5. Over titles that hold no colon the pair key is injective: two
    transitions with the same key have the same two titles. *)
Theorem pairKey_injective_on_colon_free (a b a' b' : string) :
  StrSpec.colonFree a = true -> StrSpec.colonFree a' = true ->
  StrSpec.free "::" b = true -> StrSpec.free "::" b' = true ->
  Content.pairKey a b = Content.pairKey a' b' ->
  a = a' /\ b = b'.
Proof.
  intros Ha Ha' Hb Hb' E.
  pose proof (split_pairKey a b Ha Hb) as S1.
  pose proof (split_pairKey a' b' Ha' Hb') as S2.
  rewrite E, S2 in S1. now injection S1.
Qed.

Lemma pairKey_injective_on_colon_free_witness :
  "A" = "A" /\ "B" = "B".
Proof.
  exact (pairKey_injective_on_colon_free "A" "B" "A" "B"
           eq_refl eq_refl eq_refl eq_refl eq_refl).
Defined.

(** * Further properties of the current-track read *)

Section CurrentRead.
Import Js StatusSpec.

Lemma bullet_bytes :
  bullet = String "226"%char (String "128"%char (String "162"%char "")).
Proof. reflexivity. Qed.

(** The album of a returned track is computed from the metadata and the
    byline alone. *)
Lemma getPlayerStatus_album (h : Host) (md : option MediaMetadata) (c : CurrentSong) :
  Injector.getPlayerStatus h md = Some c ->
  cs_album c
  = if String.eqb (albumOf md) ""
    then (if (1 <? Z.of_nat (length (Injector.bylineParts h)))%Z
          then nth 1 (Injector.bylineParts h) "" else "")
    else albumOf md.
Proof.
  unfold Injector.getPlayerStatus, Injector.getPlayerStatus_body, tryCatchNull.
  intros H.
  repeat match type of H with
         | (match ?e ≫= _ with Ok _ => _ | Throw => _ end) = _ =>
             destruct e eqn:?; cbn in H; [|discriminate]
         end.
  injection H as <-. reflexivity.
Qed.

End CurrentRead.

(** X7. With no player element on the page the current-track read does not
    fail: it returns a track whose title and artist are those of the platform
    metadata (empty strings without metadata) and which counts as paused. *)
Theorem current_read_without_player (h : Host) (md : option MediaMetadata) :
  Js.nullish (moviePlayer h) = true ->
  exists album : string,
    Injector.getPlayerStatus h md
    = Some {| cs_title := JStr (StatusSpec.titleOf md);
              cs_artist := JStr (StatusSpec.artistOf md);
              cs_album := album; cs_isPaused := true |}.
Proof.
  intros N.
  unfold Injector.getPlayerStatus, Injector.getPlayerStatus_body, Js.tryCatchNull.
  assert (G : forall p, Js.optGet (moviePlayer h) p = Ok JUndefined).
  { intros p. unfold Js.optGet. now rewrite N. }
  rewrite !G. cbn.
  destruct md as [m|]; cbn; [|eauto].
  unfold Js.orElse. cbn.
  destruct (String.eqb_spec (md_title m) "") as [-> | _];
    destruct (String.eqb_spec (md_artist m) "") as [-> | _]; cbn; eauto.
Qed.

Lemma current_read_without_player_witness :
  exists album : string,
    Injector.getPlayerStatus Examples.bareHost (Some (Examples.md "B" "Y"))
    = Some {| cs_title := JStr "B"; cs_artist := JStr "Y";
              cs_album := album; cs_isPaused := true |}.
Proof.
  exact (current_read_without_player Examples.bareHost
           (Some (Examples.md "B" "Y")) eq_refl).
Defined.

(** X8. The album of the current-track read: the platform metadata's album
    when it is not empty; otherwise, when the byline is absent or holds no
    bullet, the empty string; and when the byline is [a • b] with its first
    bullet there and none in [b], the text [b] trimmed. *)
Theorem current_read_album (h : Host) (md : option MediaMetadata)
    (c : CurrentSong) (a b : string) :
  Injector.getPlayerStatus h md = Some c ->
  (StatusSpec.albumOf md <> "" -> cs_album c = StatusSpec.albumOf md)
  /\ (StatusSpec.albumOf md = "" ->
        (forall t, byline h = Some t -> StrSpec.free StatusSpec.bullet t = true) ->
        cs_album c = "")
  /\ (StatusSpec.albumOf md = "" ->
        byline h = Some (a ++ StatusSpec.bullet ++ b)%string ->
        StrSpec.noMatchBefore StatusSpec.bullet
          (a ++ StatusSpec.bullet ++ b) (String.length a) = true ->
        StrSpec.free StatusSpec.bullet b = true ->
        cs_album c = Str.trim b).
Proof.
  intros H. rewrite (getPlayerStatus_album h md c H).
  split; [|split].
  - intros Hn. now destruct (String.eqb_spec (StatusSpec.albumOf md) "").
  - intros -> Hb. cbn [String.eqb]. unfold Injector.bylineParts.
    destruct (byline h) as [t|] eqn:E; [|reflexivity].
    change "•" with StatusSpec.bullet. unfold Str.split.
    rewrite (split_aux_free _ t "" (Hb t eq_refl)). reflexivity.
  - intros -> Hb Hm Hf. cbn [String.eqb]. unfold Injector.bylineParts.
    rewrite Hb. change "•" with StatusSpec.bullet. unfold Str.split.
    rewrite bullet_bytes in *.
    rewrite (split_aux_first _ _ a b "" Hm).
    rewrite (split_aux_free _ b "" Hf). reflexivity.
Qed.

Lemma current_read_album_witness :
  Injector.getPlayerStatus ExamplesStatus.bylineHost (Some (Examples.md "B" "Y"))
  = Some ExamplesStatus.trackB
  /\ cs_album ExamplesStatus.trackB = Str.trim " Album"
  /\ Injector.getPlayerStatus ExamplesNbsp.host (Some (Examples.md "B" "Y"))
     = Some ExamplesStatus.trackB
  /\ Str.trim (ExamplesNbsp.nbsp ++ "Album" ++ ExamplesNbsp.nbsp) = "Album".
Proof.
  split; [reflexivity|].
  destruct (current_read_album ExamplesStatus.bylineHost
              (Some (Examples.md "B" "Y")) ExamplesStatus.trackB
              "Artist " " Album" eq_refl) as (_ & _ & H).
  destruct (current_read_album ExamplesNbsp.host
              (Some (Examples.md "B" "Y")) ExamplesStatus.trackB
              "Artist " (ExamplesNbsp.nbsp ++ "Album" ++ ExamplesNbsp.nbsp)
              eq_refl) as (_ & _ & K).
  split; [apply H; reflexivity|].
  split; [reflexivity|].
  rewrite <- K; reflexivity.
Defined.

(** * Further properties of the trap *)

Section TrapSessions.
Import TrapRun.

Lemma trapStep_locked (t : Injector.Trap) (e : TrapEvent) :
  Injector.isLocked t = true -> isResume e = false ->
  Injector.isLocked (fst (trapStep t e)) = true
  /\ existsb isRealPlay (snd (trapStep t e)) = false.
Proof.
  intros L R. destruct e as [h nv|this|h|h]; cbn [trapStep]; try discriminate.
  - unfold Injector.set_metadata.
    destruct nv as [m|]; [|now split].
    destruct (negb (strictEqStr (md_title m) (Injector.currentTitle t))); [|now split].
    unfold Injector.broadcast. cbn [Injector._metadata Injector.isLocked].
    destruct (Injector.getPlayerStatus h (Some m)); cbn;
      destruct (video h); cbn; auto.
  - unfold Injector.play. rewrite L. auto.
  - unfold Injector.onRequestData, Injector.broadcast.
    destruct (Injector.getPlayerStatus h (Injector._metadata t)); cbn; auto.
Qed.

End TrapSessions.

(** X9. Only Resume releases the lock.  From a locked trap, through any
    sequence of metadata assignments, playback-start calls and data requests
    that holds no Resume event, the trap ends locked and no real playback was
    started on the way. *)
Theorem lock_held_until_resume (t : Injector.Trap) (es : list TrapRun.TrapEvent) :
  Injector.isLocked t = true ->
  forallb (fun e => negb (TrapRun.isResume e)) es = true ->
  Injector.isLocked (fst (TrapRun.trapRun t es)) = true
  /\ existsb TrapRun.isRealPlay (snd (TrapRun.trapRun t es)) = false.
Proof.
  revert t. induction es as [|e es IH]; intros t L F; [auto|].
  cbn [forallb] in F. apply andb_true_iff in F as [Fe Fs].
  apply negb_true_iff in Fe.
  destruct (trapStep_locked t e L Fe) as (L1 & P1).
  cbn [TrapRun.trapRun].
  destruct (TrapRun.trapStep t e) as [t1 a1]. cbn [fst snd] in *.
  destruct (IH t1 L1 Fs) as (L2 & P2).
  destruct (TrapRun.trapRun t1 es) as [t2 a2]. cbn [fst snd] in *.
  split; [exact L2|]. rewrite existsb_app, P1, P2. reflexivity.
Qed.

Lemma lock_held_until_resume_witness :
  Injector.isLocked
    (fst (TrapRun.trapRun Examples.lockedTrap ExamplesTrapRun.noResume)) = true
  /\ existsb TrapRun.isRealPlay
       (snd (TrapRun.trapRun Examples.lockedTrap ExamplesTrapRun.noResume)) = false.
Proof.
  exact (lock_held_until_resume Examples.lockedTrap ExamplesTrapRun.noResume
           eq_refl eq_refl).
Defined.

(** X10. A data request does not set up a false track change: once the
    request has been answered on a page whose metadata has a non-empty title,
    assigning that same metadata again is inert, on any page. *)
Theorem no_trigger_after_data_request (h h' : Host) (t : Injector.Trap)
    (m : MediaMetadata) (c : CurrentSong) :
  Injector._metadata t = Some m ->
  md_title m <> "" ->
  Injector.getPlayerStatus h (Some m) = Some c ->
  snd (Injector.onRequestData h t)
  = [Dispatch (EVENT_RETURN_DATA
       {| d_currentSong := c; d_upcomingSong := Injector.getNextSongData h;
          d_reason := "REQUESTED" |})]
  /\ Injector.isLocked (fst (Injector.onRequestData h t)) = Injector.isLocked t
  /\ snd (Injector.set_metadata h' (fst (Injector.onRequestData h t)) (Some m)) = []
  /\ Injector.isLocked
       (fst (Injector.set_metadata h' (fst (Injector.onRequestData h t)) (Some m)))
     = Injector.isLocked t.
Proof.
  intros Hm Hne Hc.
  pose proof (getPlayerStatus_title h m c Hc Hne) as Ht.
  unfold Injector.onRequestData, Injector.broadcast. rewrite Hm, Hc.
  cbn [fst snd]. split; [reflexivity|]. split; [reflexivity|].
  unfold Injector.set_metadata. cbn [Injector.currentTitle Injector.isLocked].
  rewrite Ht, strictEqStr_refl. cbn. auto.
Qed.

Lemma no_trigger_after_data_request_witness :
  snd (Injector.set_metadata Examples.bareHost
         (fst (Injector.onRequestData ExamplesStatus.bylineHost Examples.unlockedTrap))
         (Some (Examples.md "B" "Y"))) = [].
Proof.
  destruct (no_trigger_after_data_request ExamplesStatus.bylineHost
              Examples.bareHost Examples.unlockedTrap (Examples.md "B" "Y")
              ExamplesStatus.trackB eq_refl) as (_ & _ & H & _);
    [discriminate|reflexivity|exact H].
Defined.

(** X11. In the earlier injector a track change that arrives while the page
    has no video element is lost: the title is recorded without lock, pause
    or Trigger, and assigning the same metadata again once a video element
    exists is inert. *)
Theorem v1_change_without_video_is_lost (h h' : Host) (t : InjectorV1.Trap)
    (m : MediaMetadata) :
  video h = None ->
  md_title m <> InjectorV1.currentTitle t ->
  let t1 := fst (InjectorV1.set_metadata h t (Some m)) in
  snd (InjectorV1.set_metadata h t (Some m)) = []
  /\ InjectorV1.isLocked t1 = InjectorV1.isLocked t
  /\ InjectorV1.currentTitle t1 = md_title m
  /\ snd (InjectorV1.set_metadata h' t1 (Some m)) = []
  /\ InjectorV1.isLocked (fst (InjectorV1.set_metadata h' t1 (Some m)))
     = InjectorV1.isLocked t.
Proof.
  intros Hv Hne t1. subst t1. unfold InjectorV1.set_metadata. rewrite Hv.
  destruct (String.eqb_spec (md_title m) (InjectorV1.currentTitle t));
    [contradiction|].
  cbn. rewrite String.eqb_refl. cbn. auto.
Qed.

Lemma v1_change_without_video_is_lost_witness :
  snd (InjectorV1.set_metadata Examples.bareHost
         (fst (InjectorV1.set_metadata ExamplesTrapRun.noVideoHost
                 Examples.unlockedTrapV1 (Some (Examples.md "C" "Z"))))
         (Some (Examples.md "C" "Z"))) = [].
Proof.
  pose proof (v1_change_without_video_is_lost ExamplesTrapRun.noVideoHost
                Examples.bareHost Examples.unlockedTrapV1 (Examples.md "C" "Z")
                eq_refl) as H.
  cbv zeta in H. destruct H as (_ & _ & _ & H & _); [discriminate|exact H].
Defined.

(** * Further properties of the coordinator *)

Section CoordinatorFacts.
Import Content ContentSpec EffectSpec.

Lemma performPrefetch_payload (s : State) (key : string) (p : PrewarmPayload) :
  In (PREWARM_RJ p) (snd (performPrefetch s key)) ->
  exists c u, currentSong s = Some c /\ upcomingSong s = Some u
              /\ p = prewarmOf c u /\ key = pairKey (c_title c) (u_title u)
              /\ key ∉ processedPairs s.
Proof.
  unfold performPrefetch.
  destruct (currentSong s) as [c|]; [|now cbn].
  destruct (upcomingSong s) as [u|]; [|now cbn].
  destruct (String.eqb_spec (pairKey (c_title c) (u_title u)) key) as [E|E];
    cbn [negb]; [|now cbn].
  destruct (bool_decide (key ∈ processedPairs s)) eqn:B; [now cbn|].
  apply bool_decide_eq_false in B.
  cbn. intros [[= <-]|[]]. exists c, u. auto.
Qed.

Lemma in_repeat_resume (n : nat) (e : Effect) :
  In e (repeat PublishResume n) -> e = PublishResume.
Proof. intros H. now apply repeat_spec in H. Qed.

Lemma handleSongChange_effects (s : State) c u (e : Effect) :
  In e (snd (handleSongChange s c u)) ->
  e = PublishResume \/ (isAnnounce e = true /\ isEnabled s = true).
Proof.
  rewrite handleSongChange_unfold.
  destruct (isEnabled s); [|cbn; intuition].
  destruct (currentSong s) as [p|]; [destruct c as [c|]|]; cbn; intuition; subst; auto.
Qed.

Lemma iter_schedule_waiters (n : nat) (s : State) :
  waiters (Nat.iter n schedulePrefetch s) = waiters s.
Proof.
  induction n as [|n IH]; [reflexivity|].
  change (Nat.iter (S n) schedulePrefetch s)
    with (schedulePrefetch (Nat.iter n schedulePrefetch s)).
  destruct (schedulePrefetch_songs (Nat.iter n schedulePrefetch s)) as (_ & _ & ->).
  exact IH.
Qed.

Lemma resumes_app (o1 o2 : list Effect) :
  resumes (o1 ++ o2) = (resumes o1 + resumes o2)%nat.
Proof.
  induction o1 as [|e o1 IH]; [reflexivity|].
  destruct e; cbn; now rewrite ?IH.
Qed.

Lemma resumes_repeat (n : nat) : resumes (repeat PublishResume n) = n.
Proof. induction n; cbn; auto. Qed.

End CoordinatorFacts.

(** X12. A prefetch request is only ever sent for the tracks stored at that
    moment: whenever an event makes the coordinator send PREWARM_RJ, the
    event is a timer firing, both tracks are stored, the pair was not yet
    processed, and the payload carries their titles and artists unchanged. *)
Theorem prewarm_payload_is_stored_pair (s : Content.State) (e : Content.Event)
    (p : Content.PrewarmPayload) :
  In (Content.PREWARM_RJ p) (snd (Content.step s e)) ->
  (exists id, e = Content.OnTimer id)
  /\ exists c u, Content.currentSong s = Some c /\ Content.upcomingSong s = Some u
                 /\ p = EffectSpec.prewarmOf c u
                 /\ (Content.pairKey (Content.c_title c) (Content.u_title u)
                     ∉ Content.processedPairs s).
Proof.
  intros H.
  assert (NoH : forall c u, ~ In (Content.PREWARM_RJ p)
                               (snd (Content.handleSongChange s c u))).
  { intros c u Hin. apply handleSongChange_effects in Hin as [E|[E _]]; discriminate. }
  destruct e as [c u|c u|c u|ty paused|id|b|b]; cbn [Content.step] in H.
  - now apply NoH in H.
  - repeat case_match; cbn in H; try contradiction. now apply NoH in H.
  - repeat case_match; cbn in H; contradiction.
  - destruct (String.eqb ty "TTS_ENDED"); [|contradiction].
    rewrite onTtsEnded_resumes in H. apply in_app_or in H as [H|H].
    + repeat case_match; cbn in H; intuition discriminate.
    + apply in_repeat_resume in H. discriminate.
  - split; [eauto|]. unfold Content.onTimer in H.
    destruct (Content.timers s !! id) as [t|]; [|contradiction].
    destruct (Content.t_cb t) as [key|]; [|contradiction].
    apply performPrefetch_payload in H as (c & u & Hc & Hu & -> & -> & N).
    exists c, u. auto.
  - contradiction.
  - destruct H as [H|[]]; discriminate.
Qed.

Lemma prewarm_payload_is_stored_pair_witness :
  (exists id, Content.OnTimer 1 = Content.OnTimer id)
  /\ exists c u,
       Content.currentSong ExamplesContent.playingA = Some c
       /\ Content.upcomingSong ExamplesContent.playingA = Some u
       /\ EffectSpec.prewarmOf ExamplesContent.songA ExamplesContent.nextB
          = EffectSpec.prewarmOf c u
       /\ (Content.pairKey (Content.c_title c) (Content.u_title u)
           ∉ Content.processedPairs ExamplesContent.playingA).
Proof.
  apply (prewarm_payload_is_stored_pair ExamplesContent.playingA (Content.OnTimer 1)).
  left. reflexivity.
Defined.

Section DisabledMode.
Import Content EffectSpec.

Lemma step_disabled (s : State) (e : Event) :
  isEnabled s = false -> enables e = false ->
  isEnabled (fst (step s e)) = false
  /\ existsb isAnnounce (snd (step s e)) = false.
Proof.
  intros D N.
  assert (HS : forall c u, handleSongChange s c u = (s, [PublishResume])).
  { intros c u. rewrite handleSongChange_unfold. now rewrite D. }
  assert (SP : forall s0, isEnabled (schedulePrefetch s0) = isEnabled s0).
  { intros s0. unfold schedulePrefetch, clearTimeout, setTimeout, set_prefetchTimer.
    repeat case_match; reflexivity. }
  destruct e as [c u|c u|c u|ty paused|id|b|b]; cbn [step].
  - rewrite HS. auto.
  - repeat case_match; rewrite ?HS; cbn; rewrite ?SP; auto.
  - repeat case_match; cbn; rewrite ?SP; auto.
  - destruct (String.eqb ty "TTS_ENDED"); [|auto].
    unfold onTtsEnded. cbn [fst snd]. split.
    + induction (waiters s) as [|n IH]; [exact D|].
      change (Nat.iter (S n) schedulePrefetch (clear_waiters s))
        with (schedulePrefetch (Nat.iter n schedulePrefetch (clear_waiters s))).
      now rewrite SP.
    + rewrite existsb_app. apply orb_false_iff. split.
      * now repeat case_match.
      * induction (waiters s); cbn; auto.
  - unfold onTimer, performPrefetch. repeat case_match; cbn; auto.
  - cbn in N. subst b. auto.
  - cbn in N. subst b. auto.
Qed.

End DisabledMode.

(** X13. While the extension is switched off no announcement is ever
    requested: from a disabled state, through any sequence of events none of
    which switches it on, the coordinator stays disabled and sends no
    announce message. *)
Theorem disabled_never_announces (s : Content.State) (es : list Content.Event) :
  Content.isEnabled s = false ->
  forallb (fun e => negb (EffectSpec.enables e)) es = true ->
  Content.isEnabled (fst (Content.run s es)) = false
  /\ existsb EffectSpec.isAnnounce (snd (Content.run s es)) = false.
Proof.
  revert s. induction es as [|e es IH]; intros s D F; [auto|].
  cbn [forallb] in F. apply andb_true_iff in F as [Fe Fs].
  apply negb_true_iff in Fe.
  destruct (step_disabled s e D Fe) as (D1 & A1).
  cbn [Content.run].
  destruct (Content.step s e) as [s1 o1]. cbn [fst snd] in *.
  destruct (IH s1 D1 Fs) as (D2 & A2).
  destruct (Content.run s1 es) as [s2 o2]. cbn [fst snd] in *.
  split; [exact D2|]. now rewrite existsb_app, A1, A2.
Qed.

Lemma disabled_never_announces_witness :
  Content.isEnabled
    (fst (Content.run ExamplesContent.playingA_disabled ExamplesDisabled.events))
  = false
  /\ existsb EffectSpec.isAnnounce
       (snd (Content.run ExamplesContent.playingA_disabled ExamplesDisabled.events))
     = false.
Proof.
  exact (disabled_never_announces ExamplesContent.playingA_disabled
           ExamplesDisabled.events eq_refl eq_refl).
Defined.

(** X14. The initial data pull is passive: a DataReturn event stores both
    tracks, sends nothing and leaves every waiting announce waiting; when both
    tracks are present the check for their pair is pending at 15000 ms, and
    when one is absent the timers are left exactly as they were. *)
Theorem data_return_is_passive (s : Content.State)
    (c : option Content.CurrentSong) (u : option Content.UpcomingSong) :
  let r := Content.step s (Content.OnReturnData c u) in
  snd r = []
  /\ Content.currentSong (fst r) = c
  /\ Content.upcomingSong (fst r) = u
  /\ Content.waiters (fst r) = Content.waiters s
  /\ Content.processedPairs (fst r) = Content.processedPairs s
  /\ (forall c' u', c = Some c' -> u = Some u' ->
        ContentSpec.pendingPrefetch (fst r)
        = Some (Content.pairKey (Content.c_title c') (Content.u_title u'), 15000))
  /\ (c = None \/ u = None ->
        Content.timers (fst r) = Content.timers s
        /\ Content.prefetchTimer (fst r) = Content.prefetchTimer s).
Proof.
  intros r. subst r. cbn [Content.step].
  destruct (schedulePrefetch_songs (Content.set_songs s c u)) as (Sc & Su & Sw).
  pose proof (schedulePrefetch_processed (Content.set_songs s c u)) as Sp.
  destruct c as [c0|], u as [u0|]; cbn [fst snd];
    rewrite ?Sc, ?Su, ?Sw, ?Sp; cbn;
    (split; [reflexivity|]); (split; [reflexivity|]); (split; [reflexivity|]);
    (split; [reflexivity|]); (split; [reflexivity|]); split;
    try (intros ? ? ? ?; discriminate); try (intros _; split; reflexivity).
  - intros ? ? [= <-] [= <-]. now apply schedulePrefetch_pending.
  - intros [?|?]; discriminate.
Qed.

(** X15. An Update event whose current-track title is the stored one never
    touches the stored current track or announces: with the same upcoming
    title it changes nothing at all; with another it stores the new upcoming
    track, sends nothing, and the check for the new live pair is pending at
    15000 ms.  An Update whose current-track title differs is handled exactly
    as a Trigger. *)
Theorem update_handling (s : Content.State)
    (c : option Content.CurrentSong) (u : option Content.UpcomingSong) :
  (Content.titleOfC c <> Content.titleOfC (Content.currentSong s) ->
     Content.step s (Content.OnUpdate c u) = Content.step s (Content.OnTrigger c u))
  /\ (Content.titleOfC c = Content.titleOfC (Content.currentSong s) ->
      Content.titleOfU (Content.upcomingSong s) = Content.titleOfU u ->
        Content.step s (Content.OnUpdate c u) = (s, []))
  /\ (Content.titleOfC c = Content.titleOfC (Content.currentSong s) ->
      Content.titleOfU (Content.upcomingSong s) <> Content.titleOfU u ->
        let r := Content.step s (Content.OnUpdate c u) in
        snd r = []
        /\ Content.currentSong (fst r) = Content.currentSong s
        /\ Content.upcomingSong (fst r) = u
        /\ forall P, ContentSpec.livePair (Content.set_upcoming s u) = Some P ->
                     ContentSpec.pendingPrefetch (fst r) = Some (P, 15000)).
Proof.
  cbn [Content.step]. split; [|split].
  - intros N. now rewrite bool_decide_eq_false_2.
  - intros E1 E2. now rewrite !bool_decide_eq_true_2.
  - intros E1 N2. rewrite bool_decide_eq_true_2 by exact E1.
    rewrite bool_decide_eq_false_2 by exact N2. cbn [negb fst snd].
    destruct (schedulePrefetch_songs (Content.set_upcoming s u)) as (Sc & Su & _).
    rewrite Sc, Su. repeat split. intros P. apply schedulePrefetch_pending.
Qed.

Lemma data_return_is_passive_witness :
  ContentSpec.pendingPrefetch
    (fst (Content.step Content.initial
            (Content.OnReturnData (Some ExamplesContent.songA)
                                  (Some ExamplesContent.nextB))))
  = Some ("A::B", 15000)
  /\ Content.timers
       (fst (Content.step ExamplesContent.playingA
               (Content.OnReturnData (Some ExamplesContent.songB) None)))
     = Content.timers ExamplesContent.playingA.
Proof.
  pose proof (data_return_is_passive Content.initial
                (Some ExamplesContent.songA) (Some ExamplesContent.nextB)) as H.
  cbv zeta in H. destruct H as (_ & _ & _ & _ & _ & H & _).
  pose proof (data_return_is_passive ExamplesContent.playingA
                (Some ExamplesContent.songB) None) as K.
  cbv zeta in K. destruct K as (_ & _ & _ & _ & _ & _ & K).
  split; [exact (H _ _ eq_refl eq_refl)|].
  apply K. now right.
Defined.

Lemma update_handling_witness :
  Content.step ExamplesContent.playingA
    (Content.OnUpdate (Some ExamplesContent.songA) (Some ExamplesContent.nextB))
  = (ExamplesContent.playingA, [])
  /\ ContentSpec.pendingPrefetch
       (fst (Content.step ExamplesContent.playingA
               (Content.OnUpdate (Some ExamplesContent.songA)
                                 (Some ExamplesContent.nextC))))
     = Some ("A::C", 15000).
Proof.
  destruct (update_handling ExamplesContent.playingA
              (Some ExamplesContent.songA) (Some ExamplesContent.nextB))
    as (_ & Same & _).
  destruct (update_handling ExamplesContent.playingA
              (Some ExamplesContent.songA) (Some ExamplesContent.nextC))
    as (_ & _ & New).
  split; [apply Same; reflexivity|].
  specialize (New eq_refl). cbv zeta in New.
  destruct New as (_ & _ & _ & P); [discriminate|].
  apply P. reflexivity.
Defined.

(** X16. A pair that stays put is prefetched once: after scheduling with both
    tracks stored, the check held in [prefetchTimer], when it fires with the
    tracks unchanged, sends one PREWARM_RJ carrying the stored titles and
    artists and records the pair, unless the pair is already recorded, in
    which case it sends nothing; fired again, the same timer does nothing. *)
Theorem stable_pair_is_prefetched_once (s : Content.State)
    (c : Content.CurrentSong) (u : Content.UpcomingSong) :
  Content.currentSong s = Some c ->
  Content.upcomingSong s = Some u ->
  let P := Content.pairKey (Content.c_title c) (Content.u_title u) in
  let s' := Content.schedulePrefetch s in
  let id := Content.nextTimerId s in
  let fired := Content.step s' (Content.OnTimer id) in
  Content.prefetchTimer s' = Some id
  /\ (P ∉ Content.processedPairs s ->
        snd fired = [Content.PREWARM_RJ (EffectSpec.prewarmOf c u)]
        /\ Content.processedPairs (fst fired) = {[ P ]} ∪ Content.processedPairs s)
  /\ (P ∈ Content.processedPairs s ->
        snd fired = []
        /\ Content.processedPairs (fst fired) = Content.processedPairs s)
  /\ Content.step (fst fired) (Content.OnTimer id) = (fst fired, []).
Proof.
  intros Hc Hu P s' id fired.
  assert (E : s' = Content.set_prefetchTimer
                     (fst (Content.setTimeout (ContentSpec.cleared s)
                             (Content.PrefetchCb P) 15000)) id).
  { unfold s'. rewrite schedulePrefetch_unfold, Hc, Hu. reflexivity. }
  destruct (cleared_fields s) as (Cc & Cu & _ & Cn).
  assert (Ht : Content.timers s' !! id
               = Some {| Content.t_delay := 15000;
                         Content.t_cb := Content.PrefetchCb P |}).
  { rewrite E. cbn. rewrite Cn. apply lookup_insert_eq. }
  assert (Hcs : Content.currentSong s' = Some c /\ Content.upcomingSong s' = Some u
                /\ Content.processedPairs s' = Content.processedPairs s).
  { unfold s'. destruct (schedulePrefetch_songs s) as (-> & -> & _).
    rewrite schedulePrefetch_processed. auto. }
  destruct Hcs as (Hc' & Hu' & Hp').
  assert (Hf : fired = Content.performPrefetch (Content.clearTimeout s' id) P).
  { unfold fired. cbn [Content.step]. unfold Content.onTimer. now rewrite Ht. }
  assert (Hgone : Content.timers (fst fired) !! id = None).
  { rewrite Hf. destruct (performPrefetch_timers (Content.clearTimeout s' id) P)
      as (-> & _). cbn. apply lookup_delete_eq. }
  split; [rewrite E; reflexivity|].
  split; [|split].
  - intros N. rewrite Hf. unfold Content.performPrefetch.
    cbn [Content.clearTimeout Content.currentSong Content.upcomingSong
         Content.processedPairs].
    rewrite Hc', Hu', Hp'. fold P. rewrite String.eqb_refl. cbn [negb].
    rewrite bool_decide_eq_false_2 by exact N. cbn. now rewrite Hp'.
  - intros Y. rewrite Hf. unfold Content.performPrefetch.
    cbn [Content.clearTimeout Content.currentSong Content.upcomingSong
         Content.processedPairs].
    rewrite Hc', Hu', Hp'. fold P. rewrite String.eqb_refl. cbn [negb].
    rewrite bool_decide_eq_true_2 by exact Y. cbn. now rewrite Hp'.
  - cbn [Content.step]. unfold Content.onTimer. now rewrite Hgone.
Qed.

Lemma stable_pair_is_prefetched_once_witness :
  snd (Content.step (Content.schedulePrefetch ExamplesContent.playingA)
         (Content.OnTimer 2))
  = [Content.PREWARM_RJ
       {| Content.oldSongTitle := "A"; Content.oldArtist := "X";
          Content.newSongTitle := "B"; Content.newArtist := "Y" |}].
Proof.
  pose proof (stable_pair_is_prefetched_once ExamplesContent.playingA
                ExamplesContent.songA ExamplesContent.nextB eq_refl eq_refl) as H.
  cbv zeta in H. destruct H as (_ & H & _).
  apply H. vm_compute. intros H0. discriminate H0.
Defined.

(** X17. One completion signal releases every waiting announce, once: it
    publishes one Resume per waiting announce, plus one from the global
    listener when the video is found paused, and leaves no announce waiting;
    a further completion signal then publishes Resume only through the global
    listener. *)
Theorem completion_releases_every_announce (s : Content.State)
    (paused paused' : option bool) :
  let r := Content.step s (Content.OnMessage "TTS_ENDED" paused) in
  EffectSpec.resumes (snd r)
  = (Content.waiters s + match paused with Some true => 1 | _ => 0 end)%nat
  /\ existsb EffectSpec.isAnnounce (snd r) = false
  /\ Content.waiters (fst r) = 0%nat
  /\ snd (Content.step (fst r) (Content.OnMessage "TTS_ENDED" paused'))
     = match paused' with Some true => [Content.PublishResume] | _ => [] end.
Proof.
  intros r. subst r.
  change (Content.step s (Content.OnMessage "TTS_ENDED" paused))
    with (Content.onTtsEnded s paused).
  assert (W : Content.waiters (fst (Content.onTtsEnded s paused)) = 0%nat).
  { unfold Content.onTtsEnded. cbn [fst]. now rewrite iter_schedule_waiters. }
  rewrite onTtsEnded_resumes, resumes_app, resumes_repeat.
  split; [destruct paused as [[|]|]; cbn; lia|].
  split.
  { rewrite existsb_app. apply orb_false_iff. split.
    - now destruct paused as [[|]|].
    - induction (Content.waiters s); cbn; auto. }
  split; [exact W|].
  change (Content.step (fst (Content.onTtsEnded s paused))
            (Content.OnMessage "TTS_ENDED" paused'))
    with (Content.onTtsEnded (fst (Content.onTtsEnded s paused)) paused').
  rewrite onTtsEnded_resumes, W. cbn. apply app_nil_r.
Qed.

(** X18. A Trigger is answered with Resume at once exactly when there is
    nothing to announce: the extension is off, no track was stored, or the
    event carries no track.  The answer is then the single Resume event, which
    unlocks the trap; otherwise no Resume is published and the trap is left as
    it is. *)
Theorem trigger_resumes_at_once (s : Content.State)
    (c : option Content.CurrentSong) (u : option Content.UpcomingSong)
    (h : Host) (t : Injector.Trap) :
  let out := snd (Content.step s (Content.OnTrigger c u)) in
  (Content.isEnabled s = false \/ Content.currentSong s = None \/ c = None ->
     out = [Content.PublishResume]
     /\ Injector.isLocked (ContentSpec.deliver h t out) = false)
  /\ (Content.isEnabled s = true -> Content.currentSong s <> None -> c <> None ->
        Content.publishesResume out = false
        /\ existsb EffectSpec.isAnnounce out = true
        /\ ContentSpec.deliver h t out = t).
Proof.
  intros out. subst out. cbn [Content.step]. rewrite handleSongChange_unfold.
  split.
  - intros H.
    assert (E : snd (if Content.isEnabled s
                     then match Content.currentSong s, c with
                          | Some prev, Some cur =>
                              Content.triggerAnnounce (Content.set_songs s c u)
                                (Content.pairKey (Content.c_title prev)
                                   (Content.c_title cur)) cur
                          | _, _ => (Content.schedulePrefetch
                                       (Content.set_songs s c u),
                                     [Content.PublishResume])
                          end
                     else (s, [Content.PublishResume]))
                = [Content.PublishResume]).
    { destruct (Content.isEnabled s); [|reflexivity].
      destruct (Content.currentSong s), c; try reflexivity.
      destruct H as [H|[H|H]]; discriminate. }
    rewrite E. split; reflexivity.
  - intros En Hp Hc. rewrite En.
    destruct (Content.currentSong s) as [prev|]; [|contradiction].
    destruct c as [cur|]; [|contradiction].
    repeat split.
Qed.

Lemma trigger_resumes_at_once_witness :
  Injector.isLocked
    (ContentSpec.deliver Examples.bareHost Examples.lockedTrap
       (snd (Content.step Content.initial
               (Content.OnTrigger (Some ExamplesContent.songA)
                                  (Some ExamplesContent.nextB))))) = false
  /\ ContentSpec.deliver Examples.bareHost Examples.lockedTrap
       (snd (Content.step ExamplesContent.playingA
               (Content.OnTrigger (Some ExamplesContent.songB)
                                  (Some ExamplesContent.nextC))))
     = Examples.lockedTrap.
Proof.
  pose proof (trigger_resumes_at_once Content.initial
                (Some ExamplesContent.songA) (Some ExamplesContent.nextB)
                Examples.bareHost Examples.lockedTrap) as H.
  cbv zeta in H. destruct H as (H & _).
  pose proof (trigger_resumes_at_once ExamplesContent.playingA
                (Some ExamplesContent.songB) (Some ExamplesContent.nextC)
                Examples.bareHost Examples.lockedTrap) as K.
  cbv zeta in K. destruct K as (_ & K).
  split.
  - apply H. right. left. reflexivity.
  - apply K; [reflexivity|discriminate|discriminate].
Defined.

(** X19. At any point of any session at most one deferred prefetch check is
    pending, and it is the one held in [prefetchTimer]. *)
Theorem single_pending_prefetch_check (es : list Content.Event)
    (id1 id2 : nat) (t1 t2 : Content.Timer) (k1 k2 : string) :
  let s := fst (Content.run Content.initial es) in
  Content.timers s !! id1 = Some t1 -> Content.t_cb t1 = Content.PrefetchCb k1 ->
  Content.timers s !! id2 = Some t2 -> Content.t_cb t2 = Content.PrefetchCb k2 ->
  id1 = id2 /\ k1 = k2 /\ Content.prefetchTimer s = Some id1.
Proof.
  intros s H1 K1 H2 K2.
  destruct (run_inv es Content.initial TimerInv_initial) as (A & _).
  fold s in A.
  pose proof (A id1 t1 k1 H1 K1) as P1.
  pose proof (A id2 t2 k2 H2 K2) as P2.
  assert (id1 = id2) by congruence. subst id2.
  repeat split; [congruence|exact P1].
Qed.

(** X20. With the upcoming or the current track unknown nothing is
    prefetched: in any state a session reaches, scheduling then cancels the
    pending check and starts none, and timers firing afterwards send no
    PREWARM_RJ. *)
Theorem no_prefetch_without_both_tracks (es : list Content.Event) (ids : list nat) :
  let s := fst (Content.run Content.initial es) in
  let s' := Content.schedulePrefetch s in
  ContentSpec.livePair s = None ->
  ContentSpec.pendingPrefetch s' = None
  /\ (forall id t key, Content.timers s' !! id = Some t ->
                       Content.t_cb t <> Content.PrefetchCb key)
  /\ Content.prewarmKeys (snd (Content.run s' (map Content.OnTimer ids))) = [].
Proof.
  intros s s' L.
  assert (I : ContentSpec.TimerInv s) by apply run_inv, TimerInv_initial.
  assert (NP : forall id t key, Content.timers s' !! id = Some t ->
                                Content.t_cb t <> Content.PrefetchCb key).
  { intros id t key Hl Hk.
    destruct (schedulePrefetch_only s id t key I Hl Hk) as (E & _). congruence. }
  split; [|split; [exact NP|]].
  - unfold ContentSpec.pendingPrefetch.
    destruct (Content.prefetchTimer s') as [id|]; [|reflexivity]. cbn.
    destruct (Content.timers s' !! id) as [t|] eqn:E; [|reflexivity]. cbn.
    destruct (Content.t_cb t) as [key|] eqn:K; [|reflexivity].
    destruct (NP id t key E K).
  - assert (O : forall P, ContentSpec.OnlyFor P s').
    { intros P id t key Hl Hk. destruct (NP id t key Hl Hk). }
    pose proof (run_timers_only "" ids s' (O "")) as F1.
    pose proof (run_timers_only ":" ids s' (O ":")) as F2.
    destruct (Content.prewarmKeys _) as [|k ks]; [reflexivity|].
    apply Forall_cons in F1 as [E1 _]. apply Forall_cons in F2 as [E2 _].
    congruence.
Qed.

Lemma single_pending_prefetch_check_witness :
  1%nat = 1%nat /\ "A::B" = "A::B"
  /\ Content.prefetchTimer ExamplesContent.playingA = Some 1%nat.
Proof.
  exact (single_pending_prefetch_check
           [Content.OnInit true;
            Content.OnReturnData (Some ExamplesContent.songA)
                                 (Some ExamplesContent.nextB)]
           1 1 ExamplesTimers.checkAB ExamplesTimers.checkAB "A::B" "A::B"
           eq_refl eq_refl eq_refl eq_refl).
Defined.

Lemma no_prefetch_without_both_tracks_witness :
  ContentSpec.pendingPrefetch
    (Content.schedulePrefetch
       (fst (Content.run Content.initial ExamplesNoUpcoming.events))) = None
  /\ Content.prewarmKeys
       (snd (Content.run
               (Content.schedulePrefetch
                  (fst (Content.run Content.initial ExamplesNoUpcoming.events)))
               (map Content.OnTimer [1; 2; 3]%nat))) = [].
Proof.
  pose proof (no_prefetch_without_both_tracks ExamplesNoUpcoming.events
                [1; 2; 3]%nat) as H.
  cbv zeta in H. destruct (H eq_refl) as (P & _ & K).
  split; [exact P|exact K].
Defined.

Lemma findSelected_result_witness :
  0 = -1
  \/ exists (k : nat) (e : JsVal),
       0 = 0 + Z.of_nat k /\ ExamplesQueue.strayItems !! k = Some e
       /\ ObserverSpec.isSelected e = true
       /\ forall (j : nat) (e' : JsVal),
            (j < k)%nat -> ExamplesQueue.strayItems !! j = Some e' ->
            ObserverSpec.isSelected e' = false.
Proof.
  exact (findSelected_result ExamplesQueue.strayItems 0 0 eq_refl).
Defined.

Lemma upcoming_fields_never_empty_witness :
  Injector.getNextSongData (ExamplesQueue.hostOf ExamplesQueue.queueState)
  = Some {| up_title := JStr "Song C"; up_artist := JStr "Artist C" |}
  /\ Js.truthy (JStr "Song C") = true /\ Js.truthy (JStr "Artist C") = true.
Proof.
  split; [reflexivity|].
  exact (proj1 (upcoming_fields_never_empty
                  (ExamplesQueue.hostOf ExamplesQueue.queueState)
                  {| up_title := JStr "Song C"; up_artist := JStr "Artist C" |})
               eq_refl).
Defined.

(** X21. A page without the queue element, or whose queue holds no entry,
    has no upcoming track: both injectors return absent, and the earlier one
    does so without exception. *)
Theorem upcoming_absent_without_queue (h : Host) (qs : JsVal) :
  (Js.nullish (queueEl h) = true ->
     Injector.getNextSongData h = None
     /\ InjectorV1.getNextSongData h = Ok None)
  /\ (Js.truthy qs = true ->
      ObserverSpec.subList qs "items" = Some [] ->
      ObserverSpec.subList qs "automixItems" = Some [] ->
        (Injector.queueStateOf h = Ok (Some qs) ->
           Injector.getNextSongData h = None)
        /\ (InjectorV1.queueStateOf h = Ok qs ->
              InjectorV1.getNextSongData h = Ok None)).
Proof.
  split.
  - intros N.
    unfold Injector.getNextSongData, Injector.getNextSongData_body,
      Injector.queueStateOf, InjectorV1.getNextSongData,
      InjectorV1.queueStateOf, Js.optGet.
    rewrite N. cbn. split; reflexivity.
  - intros T Hm Ha.
    pose proof (nextOf_readUpcoming qs [] [] Hm Ha (Forall_nil_2 _)) as Hn.
    cbn in Hn. split; intros Hs.
    + unfold Injector.getNextSongData, Injector.getNextSongData_body.
      rewrite Hs. cbn. rewrite T. cbn. now rewrite Hn.
    + unfold InjectorV1.getNextSongData. rewrite Hs. cbn. rewrite T. cbn.
      exact Hn.
Qed.

Lemma upcoming_absent_without_queue_witness :
  Injector.getNextSongData Examples.bareHost = None
  /\ InjectorV1.getNextSongData Examples.bareHost = Ok None.
Proof.
  exact (proj1 (upcoming_absent_without_queue Examples.bareHost JNull) eq_refl).
Defined.

(** X22. The title and the artist of a track returned by the current-track
    read are never null or undefined: each is a non-empty value taken from the
    metadata or from the player's video data, or else the empty string. *)
Theorem current_read_fields_defaulted (h : Host) (md : option MediaMetadata)
    (c : CurrentSong) :
  Injector.getPlayerStatus h md = Some c ->
  (Js.truthy (cs_title c) = true \/ cs_title c = JStr "")
  /\ (Js.truthy (cs_artist c) = true \/ cs_artist c = JStr "").
Proof.
  assert (D : forall (a : JsVal) (vd : JsVal) (f : string) (r : JsVal),
             Js.orElse a (t ← Js.optGet vd f; Js.orElse t (Ok (JStr ""))) = Ok r ->
             Js.truthy r = true \/ r = JStr "").
  { intros a vd f r. unfold Js.orElse at 1.
    destruct (Js.truthy a) eqn:Ta; [intros [= <-]; now left|].
    destruct (Js.optGet vd f) as [t|]; cbn; [|discriminate].
    unfold Js.orElse. destruct (Js.truthy t) eqn:Tt; intros [= <-]; auto. }
  unfold Injector.getPlayerStatus, Injector.getPlayerStatus_body, Js.tryCatchNull.
  intros H.
  destruct (Js.optGet (moviePlayer h) "getVideoData") as [gv|]; cbn in H; [|discriminate].
  destruct (if Js.truthy gv then Js.call gv else Ok JNull) as [vd|]; cbn in H;
    [|discriminate].
  destruct (Js.orElse _ (t ← Js.optGet vd "title"; _)) as [ti|] eqn:Et; cbn in H;
    [|discriminate].
  destruct (Js.orElse _ (a ← Js.optGet vd "author"; _)) as [ar|] eqn:Ea; cbn in H;
    [|discriminate].
  destruct (Js.optGet (moviePlayer h) "getPlayerState") as [gp|]; cbn in H;
    [|discriminate].
  destruct (if Js.truthy gp then _ else _) as [ip|]; cbn in H; [|discriminate].
  injection H as <-. cbn. split; [eapply D; eauto|eapply D; eauto].
Qed.

Lemma current_read_fields_defaulted_witness :
  (Js.truthy (JStr "B") = true \/ JStr "B" = JStr "")
  /\ (Js.truthy (JStr "Y") = true \/ JStr "Y" = JStr "").
Proof.
  exact (current_read_fields_defaulted ExamplesStatus.bylineHost
           (Some (Examples.md "B" "Y")) ExamplesStatus.trackB eq_refl).
Defined.
